(** * AutoSaver for Nuke scripts: version-up paths and the save timer

    A shallow embedding of [versionUp.py] and [versionUp12.py].

    Modelling choices, all taken from the sources:
    - a Python [str] is a list of characters; characters are the code
      points 0..255, where [\d] is exactly ['0'..'9'] and the
      case-insensitive literals [v], [n], [k] match themselves and their
      capitals only;
    - [os.path] is the POSIX flavour ([posixpath]), separator ['/'];
    - [int] is unbounded ([N]); paths are assumed shorter than the
      interpreter's limit on the number of digits [int] converts;
    - timestamps are rationals ([time.time()] read from the host clock);
    - the [nuke] module and [threading.Timer] belong to the host: their
      calls are recorded in a trace, and the host's own reaction to a save
      is a parameter of the model. *)

From Stdlib Require Import List Ascii String Bool Arith NArith ZArith QArith Lia.
From Stdlib Require Import DecimalString DecimalN DecimalPos.
Import ListNotations.
Close Scope Q_scope.

Set Implicit Arguments.

(** ** Strings *)

Definition pystr : Type := list ascii.

Definition str (s : string) : pystr := list_ascii_of_string s.

Definition sep : ascii := "/"%char.
Definition extsep : ascii := "."%char.
Definition newline : ascii := "010"%char.

Definition is_sep (c : ascii) : bool := Ascii.eqb c sep.
Definition is_dot (c : ascii) : bool := Ascii.eqb c extsep.
Definition is_newline (c : ascii) : bool := Ascii.eqb c newline.

(** [\d] on code points below 256. *)
Definition is_digit (c : ascii) : bool :=
  let n := N_of_ascii c in (48 <=? n)%N && (n <=? 57)%N.

(** A literal letter under [re.IGNORECASE]: [lo] is the lower-case letter,
    [up] its capital. *)
Definition ci_letter (lo up c : ascii) : bool := Ascii.eqb c lo || Ascii.eqb c up.

Definition is_v : ascii -> bool := ci_letter "v" "V".
Definition is_n : ascii -> bool := ci_letter "n" "N".
Definition is_k : ascii -> bool := ci_letter "k" "K".

(** [str.lower()] on code points below 256: [A-Z] and the capitals of the
    Latin-1 block ([0xC0]..[0xDE] but the multiplication sign [0xD7]) move
    up by 32, everything else stays. *)
Definition lower_char (c : ascii) : ascii :=
  let n := N_of_ascii c in
  if ((65 <=? n) && (n <=? 90) || (192 <=? n) && (n <=? 222) && negb (n =? 215))%N
  then ascii_of_N (n + 32) else c.

Definition lower (s : pystr) : pystr := map lower_char s.

Definition pystr_eqb (a b : pystr) : bool :=
  if list_eq_dec ascii_dec a b then true else false.

(** ** [int(...)] and the format [{:03d}] *)

Definition digit_val (c : ascii) : N := (N_of_ascii c - 48)%N.

Definition int_step (acc : N) (c : ascii) : N := (10 * acc + digit_val c)%N.

(** [int(s)] for a string of decimal digits. *)
Definition int_of_digits (s : pystr) : N := fold_left int_step s 0%N.

(** [str(n)]: the decimal digits of [n], no leading zero, ["0"] for zero. *)
Definition decimal (n : N) : pystr :=
  list_ascii_of_string (NilEmpty.string_of_uint (N.to_uint n)).

(** [format(n, "03d")] for a non-negative [n]. *)
Definition format_03d (n : N) : pystr :=
  let s := decimal n in
  repeat "0"%char (3 - List.length s) ++ s.

(** ** [posixpath] *)

(** [s.rfind(c)]: the last index of [c] in [s], [-1] when absent. *)
Fixpoint rfind_from (c : ascii) (s : pystr) (i : nat) : option nat :=
  match s with
  | [] => None
  | x :: r =>
      match rfind_from c r (S i) with
      | Some j => Some j
      | None => if Ascii.eqb x c then Some i else None
      end
  end.

Definition rfind (c : ascii) (s : pystr) : Z :=
  match rfind_from c s 0 with
  | Some j => Z.of_nat j
  | None => (-1)%Z
  end.

(** [s.rstrip('/')]. *)
Fixpoint rstrip_sep (s : pystr) : pystr :=
  match s with
  | [] => []
  | c :: r =>
      match rstrip_sep r with
      | [] => if is_sep c then [] else [c]
      | r' => c :: r'
      end
  end.

(** [posixpath.basename]:
    [i = p.rfind(sep) + 1; return p[i:]]. *)
Definition basename (p : pystr) : pystr :=
  let i := Z.to_nat (rfind sep p + 1) in
  skipn i p.

(** [posixpath.dirname]:
    [i = p.rfind(sep) + 1; head = p[:i];
     if head and head != sep*len(head): head = head.rstrip(sep)]. *)
Definition dirname (p : pystr) : pystr :=
  let i := Z.to_nat (rfind sep p + 1) in
  let head := firstn i p in
  if negb (forallb is_sep head) then rstrip_sep head else head.

(** [genericpath._splitext(p, sep, None, extsep)], as [posixpath.splitext]
    calls it. *)
Definition splitext (p : pystr) : pystr * pystr :=
  let sepIndex := rfind sep p in
  let dotIndex := rfind extsep p in
  if (sepIndex <? dotIndex)%Z then
    let filenameIndex := Z.to_nat (sepIndex + 1) in
    let leading := firstn (Z.to_nat dotIndex - filenameIndex) (skipn filenameIndex p) in
    if existsb (fun c => negb (is_dot c)) leading
    then (firstn (Z.to_nat dotIndex) p, skipn (Z.to_nat dotIndex) p)
    else (p, [])
  else (p, []).

(** [posixpath.join(a, b)] with one component [b]:
    [if b.startswith(sep): path = b
     elif not path or path.endswith(sep): path += b
     else: path += sep + b]. *)
Definition startswith_sep (b : pystr) : bool :=
  match b with
  | c :: _ => is_sep c
  | [] => false
  end.

Definition endswith_sep (a : pystr) : bool := startswith_sep (rev a).

Definition is_empty (a : pystr) : bool :=
  match a with
  | [] => true
  | _ :: _ => false
  end.

Definition join (a b : pystr) : pystr :=
  if startswith_sep b then b
  else if is_empty a || endswith_sep a then a ++ b
  else a ++ sep :: b.

(** ** The version pattern

    [re.search(r'(.+?)(\.v)(\d+)(\.nk)$', base_name, re.IGNORECASE)],
    followed step by step as the backtracking matcher runs it. *)

Record groups : Type := Groups {
  name_part : pystr;
  v_part : pystr;
  version_num : pystr;
  ext_part : pystr
}.

(** The greedy [\d+]: the longest run of digits and what follows it. *)
Fixpoint span_digits (s : pystr) : pystr * pystr :=
  match s with
  | c :: r =>
      if is_digit c then let (d, t) := span_digits r in (c :: d, t)
      else ([], s)
  | [] => ([], [])
  end.

(** [$] without [re.MULTILINE]: the end of the string, or just before a
    line feed that is its last character. *)
Definition at_end (s : pystr) : bool :=
  match s with
  | [] => true
  | [c] => is_newline c
  | _ => false
  end.

(** [(\.v)(\d+)(\.nk)$] anchored at the head of [s].  The run of digits is
    taken whole: a shorter run is followed by a digit, which [\.] refuses,
    so backtracking into [\d+] never finds another match. *)
Definition match_tail (s : pystr) : option (pystr * pystr * pystr) :=
  match s with
  | d :: v :: r =>
      if is_dot d && is_v v then
        match span_digits r with
        | (c :: ds, d' :: n :: k :: t) =>
            if is_dot d' && is_n n && is_k k && at_end t
            then Some ([d; v], c :: ds, [d'; n; k])
            else None
        | _ => None
        end
      else None
  | _ => None
  end.

(** The lazy [(.+?)] from a fixed start: [acc] holds, reversed, the
    characters the group has taken so far; the group takes one more
    character (never a line feed) and the rest of the pattern is tried
    before it takes another. *)
Fixpoint lazy_name (acc : pystr) (s : pystr) : option groups :=
  match s with
  | [] => None
  | c :: r =>
      if is_newline c then None
      else match match_tail r with
           | Some (v, d, e) => Some (Groups (rev (c :: acc)) v d e)
           | None => lazy_name (c :: acc) r
           end
  end.

(** [re.search]: the leftmost start at which the pattern matches. *)
Fixpoint re_search (s : pystr) : option groups :=
  match lazy_name [] s with
  | Some g => Some g
  | None =>
      match s with
      | [] => None
      | _ :: r => re_search r
      end
  end.

(** ** [AutoSaverCallbacks._get_next_version_path]

    The two files have the same body, up to the syntax of the format
    string. *)
Definition _get_next_version_path (script_path : pystr) : pystr :=
  let script_dir := dirname script_path in
  let base_name := basename script_path in
  let new_name :=
    match re_search base_name with
    | Some g =>
        let next_version := (int_of_digits (version_num g) + 1)%N in
        name_part g ++ v_part g ++ format_03d next_version ++ ext_part g
    | None =>
        let (name_part, ext_part) := splitext base_name in
        name_part ++ str ".v001" ++ ext_part
    end in
  join script_dir new_name.

(** The version number a path carries, as the pattern reads it. *)
Definition version_of (p : pystr) : option N :=
  match re_search (basename p) with
  | Some g => Some (int_of_digits (version_num g))
  | None => None
  end.


(** [c] does not occur in [s]. *)
Definition absent (c : ascii) (s : pystr) : Prop :=
  forallb (fun x => negb (Ascii.eqb x c)) s = true.

(** [v], [d], [e] are texts the groups [(\.v)], [(\d+)], [(\.nk)] accept. *)
Definition version_token (v d e : pystr) : Prop :=
  exists v1 n k,
    v = [extsep; v1] /\ is_v v1 = true /\
    d <> [] /\ forallb is_digit d = true /\
    e = [extsep; n; k] /\ is_n n = true /\ is_k k = true.

Definition dots (s : pystr) : nat := List.length (filter is_dot s).

(** The version token of a basename in the words of the spec,
    [<name>.v<NNN>.<ext>] with the [.v] in any case and any extension: the
    digits that end the name once [splitext] has taken the extension off. *)
Definition version_token_of (base_name : pystr) : option N :=
  let (root, _) := splitext base_name in
  match span_digits (rev root) with
  | (c :: ds, v :: d :: _) =>
      if is_v v && is_dot d then Some (int_of_digits (rev (c :: ds))) else None
  | _ => None
  end.

Definition has_version_suffix (base_name : pystr) : bool :=
  match version_token_of base_name with
  | Some _ => true
  | None => false
  end.

(** ** The host: clock, current script, timers, trace of calls *)

(** A [threading.Timer] object. *)
Definition handle : Type := nat.

(** What a [print] says, without its formatting. *)
Inductive log_line : Type :=
| LogReady (backup_interval idle_threshold : Q)
| LogIdle (idle_duration : Q)
| LogSaved
| LogVersioning (new_name : pystr)
| LogScheduled (backup_interval : Q)
| LogStopped.

(** The calls the object makes on the host, in the order it makes them.
    [EvStartOrResetTimer] records an entry into [start_or_reset_timer], so
    that "is invoked" can be read off the trace. *)
Inductive event : Type :=
| EvPrint (l : log_line)
| EvScriptSave
| EvScriptSaveAs (filename : pystr)
| EvTimerCancel (h : handle)
| EvTimerStart (h : handle) (interval : Q)
| EvAddUpdateUI
| EvRemoveUpdateUI
| EvStartOrResetTimer.

Record AutoSaverCallbacks : Type := AutoSaver {
  backup_interval : Q;
  idle_threshold : Q;
  timer : option handle;
  last_interaction_time : Q
}.

Record Host : Type := MkHost {
  clock : Q;                (* what [time.time()] returns *)
  root_name : pystr;        (* what [nuke.root().name()] returns *)
  pending : list handle;    (* timers started, neither cancelled nor fired *)
  next_handle : handle;     (* the next timer object to be created *)
  trace : list event
}.

Definition config : Type := AutoSaverCallbacks * Host.

(** What the host does when it is asked to save: it may run the callbacks
    registered with it and change the current script's name. *)
Class Nuke : Type := {
  host_scriptSave : config -> config;
  host_scriptSaveAs : pystr -> config -> config
}.

(** *** A state monad over [config] *)

Definition M (A : Type) : Type := config -> A * config.

Definition ret (A : Type) (a : A) : M A := fun c => (a, c).

Definition bind (A B : Type) (m : M A) (k : A -> M B) : M B :=
  fun c => let (a, c') := m c in k a c'.

Notation "x <- m ;; k" := (bind m (fun x => k))
  (at level 61, m at next level, right associativity).
Notation "m ;; k" := (bind m (fun _ => k))
  (at level 61, right associativity).

Definition run (m : M unit) (c : config) : config := snd (m c).

Definition get_self : M AutoSaverCallbacks := fun c => (fst c, c).

Definition emit (e : event) : M unit :=
  fun c =>
    let w := snd c in
    (tt, (fst c, MkHost (clock w) (root_name w) (pending w) (next_handle w) (trace w ++ [e]))).

Definition print (l : log_line) : M unit := emit (EvPrint l).

Definition time_time : M Q := fun c => (clock (snd c), c).

Definition nuke_root_name : M pystr := fun c => (root_name (snd c), c).

Definition set_last_interaction_time (t : Q) : M unit :=
  fun c =>
    let s := fst c in
    (tt, (AutoSaver (backup_interval s) (idle_threshold s) (timer s) t, snd c)).

Definition set_timer (o : option handle) : M unit :=
  fun c =>
    let s := fst c in
    (tt, (AutoSaver (backup_interval s) (idle_threshold s) o (last_interaction_time s), snd c)).

(** [t.cancel()]: the timer is no longer pending; on a timer that has
    fired or was cancelled the call changes nothing. *)
Definition timer_cancel (h : handle) : M unit :=
  fun c =>
    let w := snd c in
    (tt, (fst c,
          MkHost (clock w) (root_name w) (remove Nat.eq_dec h (pending w)) (next_handle w)
                 (trace w ++ [EvTimerCancel h]))).

(** [t = threading.Timer(interval, ...)] then [t.start()]. *)
Definition timer_start (interval : Q) : M handle :=
  fun c =>
    let w := snd c in
    let h := next_handle w in
    (h, (fst c,
         MkHost (clock w) (root_name w) (h :: pending w) (S h)
                (trace w ++ [EvTimerStart h interval]))).

Definition nuke_addUpdateUI : M unit := emit EvAddUpdateUI.
Definition nuke_removeUpdateUI : M unit := emit EvRemoveUpdateUI.

Definition nuke_scriptSave `{Nuke} : M unit :=
  emit EvScriptSave ;; (fun c => (tt, host_scriptSave c)).

Definition nuke_scriptSaveAs `{Nuke} (filename : pystr) : M unit :=
  emit (EvScriptSaveAs filename) ;; (fun c => (tt, host_scriptSaveAs filename c)).

(** [a > b] on the numbers the clock gives. *)
Definition Qgtb (a b : Q) : bool := negb (Qle_bool a b).

Definition is_save (e : event) : bool :=
  match e with
  | EvScriptSave | EvScriptSaveAs _ => true
  | _ => false
  end.

(** The save and save-as calls of a trace. *)
Definition saves (tr : list event) : list event := filter is_save tr.

Definition is_print (e : event) : bool :=
  match e with
  | EvPrint _ => true
  | _ => false
  end.

(** The calls of a trace on the host, log lines left out. *)
Definition host_calls (tr : list event) : list event :=
  filter (fun e => negb (is_print e)) tr.

(** ** [versionUp.py] *)

Module VersionUp.

Definition __init__ (backup_interval idle_threshold : Q) (w : Host) : config :=
  run (nuke_addUpdateUI ;;
       print (LogReady backup_interval idle_threshold))
      (AutoSaver backup_interval idle_threshold None (clock w), w).

Definition _track_interaction : M unit :=
  now <- time_time ;;
  set_last_interaction_time now.

Definition start_or_reset_timer : M unit :=
  emit EvStartOrResetTimer ;;
  _track_interaction ;;
  self <- get_self ;;
  match timer self with
  | Some t => timer_cancel t
  | None => ret tt
  end ;;
  current_path <- nuke_root_name ;;
  if negb (is_empty current_path) && negb (pystr_eqb current_path (str "Root")) then
    print (LogScheduled (backup_interval self)) ;;
    t <- timer_start (backup_interval self) ;;
    set_timer (Some t)
  else ret tt.

Definition _execute_version_up `{Nuke} : M unit :=
  now <- time_time ;;
  self <- get_self ;;
  let idle_duration := (now - last_interaction_time self)%Q in
  if Qgtb idle_duration (idle_threshold self) then
    print (LogIdle idle_duration) ;;
    start_or_reset_timer
  else
    current_path <- nuke_root_name ;;
    if is_empty current_path || pystr_eqb current_path (str "Root") then ret tt
    else
      let next_version_path := _get_next_version_path current_path in
      (if pystr_eqb (lower current_path) (lower next_version_path) then
         nuke_scriptSave ;;
         print LogSaved
       else
         print (LogVersioning (basename next_version_path)) ;;
         nuke_scriptSaveAs next_version_path) ;;
      start_or_reset_timer.

Definition stop_timer : M unit :=
  self <- get_self ;;
  match timer self with
  | Some t => timer_cancel t ;; set_timer None
  | None => ret tt
  end ;;
  print LogStopped ;;
  nuke_removeUpdateUI.

End VersionUp.

(** ** [versionUp12.py] *)

Module VersionUp12.

Definition __init__ (backup_interval idle_threshold : Q) (w : Host) : config :=
  run (nuke_addUpdateUI ;;
       print (LogReady backup_interval idle_threshold))
      (AutoSaver backup_interval idle_threshold None (clock w), w).

Definition _track_interaction : M unit :=
  now <- time_time ;;
  set_last_interaction_time now.

Definition start_or_reset_timer : M unit :=
  emit EvStartOrResetTimer ;;
  _track_interaction ;;
  self <- get_self ;;
  match timer self with
  | Some t => timer_cancel t
  | None => ret tt
  end ;;
  current_path <- nuke_root_name ;;
  if negb (is_empty current_path) && negb (pystr_eqb current_path (str "Root")) then
    print (LogScheduled (backup_interval self)) ;;
    t <- timer_start (backup_interval self) ;;
    set_timer (Some t)
  else ret tt.

Definition _execute_version_up `{Nuke} : M unit :=
  now <- time_time ;;
  self <- get_self ;;
  let idle_duration := (now - last_interaction_time self)%Q in
  if Qgtb idle_duration (idle_threshold self) then
    print (LogIdle idle_duration) ;;
    start_or_reset_timer
  else
    current_path <- nuke_root_name ;;
    if is_empty current_path || pystr_eqb current_path (str "Root") then ret tt
    else
      let next_version_path := _get_next_version_path current_path in
      if pystr_eqb (lower current_path) (lower next_version_path) then
        nuke_scriptSave
      else
        print (LogVersioning (basename next_version_path)) ;;
        nuke_scriptSaveAs next_version_path ;;
        start_or_reset_timer.

Definition stop_timer : M unit :=
  self <- get_self ;;
  match timer self with
  | Some t => timer_cancel t ;; set_timer None
  | None => ret tt
  end ;;
  nuke_removeUpdateUI ;;
  print LogStopped.

End VersionUp12.

(** The callback a timer runs when it fires:
    [lambda: nuke.executeInMainThread(self._execute_version_up)].  The
    timer stops being pending, then the method runs on the main thread. *)
Definition timer_fires (h : handle) (method : M unit) : M unit :=
  fun c =>
    let w := snd c in
    if in_dec Nat.eq_dec h (pending w) then
      method (fst c,
              MkHost (clock w) (root_name w) (remove Nat.eq_dec h (pending w)) (next_handle w)
                     (trace w))
    else (tt, c).

(** At most one timer is pending, and it is the one the object holds. *)
Definition one_timer (c : config) : Prop :=
  List.length (pending (snd c)) <= 1 /\
  forall h, In h (pending (snd c)) -> timer (fst c) = Some h.

(** A host that, asked to save, makes the saved file the current script
    and runs the callback the module registers with [addOnScriptSave],
    which is [start_or_reset_timer]. *)
Definition set_root_name (p : pystr) (c : config) : config :=
  let w := snd c in
  (fst c, MkHost (clock w) p (pending w) (next_handle w) (trace w)).

Definition callbacks_host : Nuke := {|
  host_scriptSave := run VersionUp.start_or_reset_timer;
  host_scriptSaveAs := fun p c => run VersionUp.start_or_reset_timer (set_root_name p c)
|}.

(** A session for the examples: the script [name] open, the settings of
    the module's instance (a save every 4800 s, idle after 300 s), last
    interaction at 100 s, clock at [now], no timer yet. *)
Definition session (now : Q) (name : pystr) : config :=
  (AutoSaver 4800 300 None 100, MkHost now name [] 0 []).

(** ** The host's events

    What the host does to the object between two of its methods: it runs
    the callbacks the module registers ([addOnScriptLoad] and
    [addOnScriptSave] with [start_or_reset_timer], [addOnScriptClose] with
    [stop_timer], [addUpdateUI] with [_track_interaction]), a pending
    timer fires, time passes, the current script gets another name. *)

Inductive host_event : Type :=
| OnScriptLoad
| OnScriptSave
| OnScriptClose
| UpdateUI
| TimerFires (h : handle)
| ClockReads (t : Q)
| RootNamed (name : pystr).

(** Whether [_track_interaction] is registered for UI updates, read off
    the trace: the last [addUpdateUI] or [removeUpdateUI] decides. *)
Definition update_ui_registered (tr : list event) : bool :=
  fold_left (fun r e =>
               match e with
               | EvAddUpdateUI => true
               | EvRemoveUpdateUI => false
               | _ => r
               end) tr false.

Definition set_clock (t : Q) (c : config) : config :=
  let w := snd c in
  (fst c, MkHost t (root_name w) (pending w) (next_handle w) (trace w)).

Definition handle_event (track start stop execute : M unit) (e : host_event) : M unit :=
  match e with
  | OnScriptLoad | OnScriptSave => start
  | OnScriptClose => stop
  | UpdateUI =>
      fun c => if update_ui_registered (trace (snd c)) then track c else (tt, c)
  | TimerFires h => timer_fires h execute
  | ClockReads t => fun c => (tt, set_clock t c)
  | RootNamed name => fun c => (tt, set_root_name name c)
  end.

(** The events as [versionUp.py] answers them, and as [versionUp12.py]. *)
Definition on_event `{Nuke} : host_event -> M unit :=
  handle_event VersionUp._track_interaction VersionUp.start_or_reset_timer
               VersionUp.stop_timer VersionUp._execute_version_up.

Definition on_event12 `{Nuke} : host_event -> M unit :=
  handle_event VersionUp12._track_interaction VersionUp12.start_or_reset_timer
               VersionUp12.stop_timer VersionUp12._execute_version_up.

Definition run_events (step : host_event -> M unit) (es : list host_event) (c : config)
  : config :=
  fold_left (fun c e => run (step e) c) es c.

(** Events that call no method but [_track_interaction]. *)
Definition is_quiet (e : host_event) : bool :=
  match e with
  | UpdateUI | ClockReads _ | RootNamed _ => true
  | _ => false
  end.
(** ** Worked examples *)

Example next_shot :
  _get_next_version_path (str "/jobs/sq01/shot010.v002.nk") = str "/jobs/sq01/shot010.v003.nk".
Proof. reflexivity. Qed.

Example next_render :
  _get_next_version_path (str "render.nk") = str "render.v001.nk".
Proof. reflexivity. Qed.

Example next_upper :
  _get_next_version_path (str "a/b.V9.NK") = str "a/b.V010.NK".
Proof. reflexivity. Qed.

Example next_1000 :
  _get_next_version_path (str "b.v999.nk") = str "b.v1000.nk".
Proof. reflexivity. Qed.

Example next_root_dir :
  _get_next_version_path (str "//a.nk") = str "//a.v001.nk".
Proof. reflexivity. Qed.

Example next_trailing_seps :
  _get_next_version_path (str "jobs///a.v7.nk") = str "jobs/a.v008.nk".
Proof. reflexivity. Qed.

Example next_after_line_feed :
  _get_next_version_path (str "a.v001.nk" ++ [newline]) = str "a.v002.nk".
Proof. reflexivity. Qed.

(** The scenarios of the spec, on a host that runs the registered
    callbacks: an active user with [shot010.v002.nk] open gets a save-as
    to [shot010.v003.nk]; a user idle for the threshold and one second
    more gets no save, and a new timer. *)
Example scenario_save_as :
  trace (snd (run (@VersionUp._execute_version_up callbacks_host)
                  (session 200 (str "/j/shot010.v002.nk"))))
  = [EvPrint (LogVersioning (str "shot010.v003.nk"));
     EvScriptSaveAs (str "/j/shot010.v003.nk");
     EvStartOrResetTimer; EvPrint (LogScheduled 4800); EvTimerStart 0 4800;
     EvStartOrResetTimer; EvTimerCancel 0; EvPrint (LogScheduled 4800);
     EvTimerStart 1 4800].
Proof. reflexivity. Qed.

Example scenario_unversioned :
  saves (trace (snd (run (@VersionUp12._execute_version_up callbacks_host)
                         (session 200 (str "render.nk")))))
  = [EvScriptSaveAs (str "render.v001.nk")].
Proof. reflexivity. Qed.

Example scenario_idle :
  trace (snd (run (@VersionUp._execute_version_up callbacks_host)
                  (session 401 (str "render.nk"))))
  = [EvPrint (LogIdle (401 - 100)); EvStartOrResetTimer;
     EvPrint (LogScheduled 4800); EvTimerStart 0 4800].
Proof. reflexivity. Qed.

(** ** Characters *)

Ltac ascii_cases c := destruct c as [[] [] [] [] [] [] [] []].

Lemma digit_not_dot c : is_digit c = true -> is_dot c = false.
Proof. ascii_cases c; vm_compute; congruence. Qed.

Lemma digit_not_sep c : is_digit c = true -> is_sep c = false.
Proof. ascii_cases c; vm_compute; congruence. Qed.

Lemma v_not_digit c : is_v c = true -> is_digit c = false.
Proof. ascii_cases c; vm_compute; congruence. Qed.

Lemma v_not_dot c : is_v c = true -> is_dot c = false.
Proof. ascii_cases c; vm_compute; congruence. Qed.

Lemma n_not_dot c : is_n c = true -> is_dot c = false.
Proof. ascii_cases c; vm_compute; congruence. Qed.

Lemma k_not_dot c : is_k c = true -> is_dot c = false.
Proof. ascii_cases c; vm_compute; congruence. Qed.

Lemma k_not_newline c : is_k c = true -> is_newline c = false.
Proof. ascii_cases c; vm_compute; congruence. Qed.

Lemma v_not_sep c : is_v c = true -> is_sep c = false.
Proof. ascii_cases c; vm_compute; congruence. Qed.

Lemma n_not_sep c : is_n c = true -> is_sep c = false.
Proof. ascii_cases c; vm_compute; congruence. Qed.

Lemma k_not_sep c : is_k c = true -> is_sep c = false.
Proof. ascii_cases c; vm_compute; congruence. Qed.

Lemma is_dot_eq c : is_dot c = true -> c = extsep.
Proof. unfold is_dot. apply Ascii.eqb_eq. Qed.

Lemma is_newline_eq c : is_newline c = true -> c = newline.
Proof. unfold is_newline. apply Ascii.eqb_eq. Qed.

Lemma lower_char_sep c : is_sep (lower_char c) = is_sep c.
Proof. ascii_cases c; vm_compute; reflexivity. Qed.

Lemma lower_char_digit c : is_digit c = true -> lower_char c = c.
Proof. ascii_cases c; vm_compute; congruence. Qed.

(** ** [int] and the decimal format *)

Lemma int_of_digits_fold s : int_of_digits s = fold_left int_step s 0%N.
Proof. reflexivity. Qed.

Lemma int_fold_uint_pos (u : Decimal.uint) (acc : positive) :
  fold_left int_step (list_ascii_of_string (NilEmpty.string_of_uint u)) (N.pos acc)
  = N.pos (Pos.of_uint_acc u acc).
Proof.
  revert acc; induction u; intro acc;
    cbn [NilEmpty.string_of_uint list_ascii_of_string fold_left Pos.of_uint_acc];
    try reflexivity;
    rewrite <- IHu; f_equal; unfold int_step; vm_compute digit_val; lia.
Qed.

Lemma int_fold_uint (u : Decimal.uint) :
  fold_left int_step (list_ascii_of_string (NilEmpty.string_of_uint u)) 0%N
  = Pos.of_uint u.
Proof.
  induction u;
    cbn [NilEmpty.string_of_uint list_ascii_of_string fold_left Pos.of_uint];
    try reflexivity; try exact IHu;
    match goal with |- context [Pos.of_uint_acc u ?k] => exact (int_fold_uint_pos u k) end.
Qed.

Lemma int_of_decimal n : int_of_digits (decimal n) = n.
Proof.
  unfold decimal. rewrite int_of_digits_fold, int_fold_uint.
  apply (DecimalN.Unsigned.of_to n).
Qed.

Lemma int_fold_zeros k s acc :
  acc = 0%N ->
  fold_left int_step (repeat "0"%char k ++ s) acc = fold_left int_step s acc.
Proof.
  intros ->. induction k; [reflexivity | exact IHk].
Qed.

Lemma int_of_format_03d n : int_of_digits (format_03d n) = n.
Proof.
  unfold format_03d. rewrite int_of_digits_fold, int_fold_zeros by reflexivity.
  apply int_of_decimal.
Qed.

Lemma string_of_uint_digits (u : Decimal.uint) :
  forallb is_digit (list_ascii_of_string (NilEmpty.string_of_uint u)) = true.
Proof. induction u; simpl; auto. Qed.

Lemma forallb_repeat (A : Type) (f : A -> bool) (x : A) k :
  f x = true -> forallb f (repeat x k) = true.
Proof. intro H; induction k; simpl; [reflexivity | now rewrite H]. Qed.

Lemma format_03d_digits n : forallb is_digit (format_03d n) = true.
Proof.
  unfold format_03d. rewrite forallb_app. apply andb_true_intro; split.
  - now apply forallb_repeat.
  - apply string_of_uint_digits.
Qed.

Lemma format_03d_length n : 3 <= List.length (format_03d n).
Proof.
  unfold format_03d. rewrite length_app, repeat_length. lia.
Qed.

Lemma format_03d_nonempty n : format_03d n <> [].
Proof.
  intro H. pose proof (format_03d_length n) as L. rewrite H in L. simpl in L. lia.
Qed.

(** ** Paths *)

Lemma absent_cons c x s : absent c (x :: s) <-> Ascii.eqb x c = false /\ absent c s.
Proof.
  unfold absent; simpl. rewrite andb_true_iff, negb_true_iff. tauto.
Qed.

Lemma absent_app c s t : absent c (s ++ t) <-> absent c s /\ absent c t.
Proof. unfold absent. rewrite forallb_app, andb_true_iff. tauto. Qed.

Lemma absent_nil c : absent c [].
Proof. reflexivity. Qed.

Lemma rfind_from_absent c s i : absent c s -> rfind_from c s i = None.
Proof.
  revert i; induction s as [|x s IH]; intros i H; simpl; [reflexivity|].
  apply absent_cons in H as [Hx Hs]. now rewrite (IH _ Hs), Hx.
Qed.

Lemma rfind_from_last c h b i :
  absent c b -> rfind_from c (h ++ c :: b) i = Some (i + List.length h).
Proof.
  intro Hb. revert i; induction h as [|x h IH]; intro i; simpl.
  - rewrite (rfind_from_absent _ Hb), Ascii.eqb_refl. f_equal. lia.
  - rewrite IH. f_equal. lia.
Qed.

Lemma last_occurrence c s :
  absent c s \/ exists h b, s = h ++ c :: b /\ absent c b.
Proof.
  induction s as [|x s IH].
  - left. apply absent_nil.
  - destruct IH as [Hs | (h & b & -> & Hb)].
    + destruct (Ascii.eqb x c) eqn:E.
      * apply Ascii.eqb_eq in E as ->. right. exists [], s. now split.
      * left. now apply absent_cons.
    + right. exists (x :: h), b. now split.
Qed.

Lemma rfind_absent c s : absent c s -> rfind c s = (-1)%Z.
Proof. intro H. unfold rfind. now rewrite rfind_from_absent. Qed.

Lemma rfind_last c h b :
  absent c b -> rfind c (h ++ c :: b) = Z.of_nat (List.length h).
Proof. intro H. unfold rfind. now rewrite rfind_from_last. Qed.

Lemma firstn_app_exact (A : Type) (h t : list A) : firstn (List.length h) (h ++ t) = h.
Proof.
  rewrite firstn_app, Nat.sub_diag, firstn_all. simpl. apply app_nil_r.
Qed.

Lemma skipn_app_exact (A : Type) (h t : list A) : skipn (List.length h) (h ++ t) = t.
Proof.
  rewrite skipn_app, Nat.sub_diag, skipn_all. reflexivity.
Qed.

Lemma basename_absent p : absent sep p -> basename p = p.
Proof. intro H. unfold basename. now rewrite rfind_absent. Qed.

Lemma basename_last h b : absent sep b -> basename (h ++ sep :: b) = b.
Proof.
  intro H. unfold basename. rewrite (rfind_last _ H).
  replace (Z.to_nat (Z.of_nat (List.length h) + 1)) with (List.length (h ++ [sep]))
    by (rewrite length_app; simpl; lia).
  change (h ++ sep :: b) with (h ++ [sep] ++ b). rewrite app_assoc.
  apply skipn_app_exact.
Qed.

Lemma basename_no_sep p : absent sep (basename p).
Proof.
  destruct (last_occurrence sep p) as [H | (h & b & -> & H)].
  - now rewrite basename_absent.
  - now rewrite basename_last.
Qed.

Lemma dirname_absent p : absent sep p -> dirname p = [].
Proof. intro H. unfold dirname. now rewrite rfind_absent. Qed.

Lemma dirname_last h b :
  absent sep b ->
  dirname (h ++ sep :: b)
  = if negb (forallb is_sep (h ++ [sep])) then rstrip_sep (h ++ [sep]) else h ++ [sep].
Proof.
  intro H. unfold dirname. rewrite (rfind_last _ H).
  replace (Z.to_nat (Z.of_nat (List.length h) + 1)) with (List.length (h ++ [sep]))
    by (rewrite length_app; simpl; lia).
  change (h ++ sep :: b) with (h ++ [sep] ++ b). rewrite app_assoc.
  now rewrite firstn_app_exact.
Qed.

Lemma rstrip_all s : forallb is_sep s = true -> rstrip_sep s = [].
Proof.
  induction s as [|c s IH]; simpl; [reflexivity|].
  intro H. apply andb_true_iff in H as [Hc Hs]. now rewrite (IH Hs), Hc.
Qed.

Lemma rstrip_app_seps a t : forallb is_sep t = true -> rstrip_sep (a ++ t) = rstrip_sep a.
Proof.
  intro Ht. induction a as [|c a IH]; simpl.
  - now apply rstrip_all.
  - now rewrite IH.
Qed.

Lemma rstrip_last_nonsep a c : is_sep c = false -> rstrip_sep (a ++ [c]) = a ++ [c].
Proof.
  intro Hc. induction a as [|x a IH]; simpl.
  - now rewrite Hc.
  - rewrite IH. destruct (a ++ [c]) eqn:E; [|reflexivity].
    now destruct a.
Qed.

Lemma rstrip_shape s :
  forallb is_sep s = false -> exists a c, rstrip_sep s = a ++ [c] /\ is_sep c = false.
Proof.
  induction s as [|x s IH] using rev_ind; [discriminate|].
  rewrite forallb_app. simpl. rewrite andb_true_r.
  destruct (is_sep x) eqn:Hx.
  - rewrite andb_true_r. intro Hs. rewrite rstrip_app_seps by (simpl; now rewrite Hx).
    now apply IH.
  - intros _. exists s, x. split; [now apply rstrip_last_nonsep | assumption].
Qed.

(** The three shapes a directory name takes. *)
Lemma dirname_shape p :
  dirname p = []
  \/ (exists h, dirname p = h ++ [sep] /\ forallb is_sep h = true)
  \/ (exists a c, dirname p = a ++ [c] /\ is_sep c = false).
Proof.
  destruct (last_occurrence sep p) as [H | (h & b & -> & H)].
  - left. now apply dirname_absent.
  - rewrite (dirname_last _ H).
    destruct (forallb is_sep (h ++ [sep])) eqn:E; simpl.
    + right; left. exists h. split; [reflexivity|].
      rewrite forallb_app in E. now apply andb_true_iff in E as [E _].
    + right; right. now apply rstrip_shape.
Qed.

Lemma startswith_sep_absent b : absent sep b -> startswith_sep b = false.
Proof.
  destruct b as [|c b]; [reflexivity|]. intro H. now apply absent_cons in H as [H _].
Qed.

Lemma endswith_sep_snoc a c : endswith_sep (a ++ [c]) = is_sep c.
Proof. unfold endswith_sep. now rewrite rev_app_distr. Qed.

Lemma basename_join p new : absent sep new -> basename (join (dirname p) new) = new.
Proof.
  intro Hn. unfold join. rewrite (startswith_sep_absent Hn).
  destruct (dirname_shape p) as [-> | [(h & -> & Hh) | (a & c & -> & Hc)]].
  - simpl. now apply basename_absent.
  - rewrite endswith_sep_snoc. unfold is_sep at 1. rewrite Ascii.eqb_refl, orb_true_r.
    rewrite <- app_assoc. simpl. now apply basename_last.
  - rewrite endswith_sep_snoc, Hc.
    replace (is_empty (a ++ [c])) with false by now destruct a.
    simpl. now apply basename_last.
Qed.

Lemma dirname_join p new : absent sep new -> dirname (join (dirname p) new) = dirname p.
Proof.
  intro Hn. unfold join. rewrite (startswith_sep_absent Hn).
  destruct (dirname_shape p) as [-> | [(h & -> & Hh) | (a & c & -> & Hc)]].
  - simpl. now apply dirname_absent.
  - rewrite endswith_sep_snoc. unfold is_sep at 1. rewrite Ascii.eqb_refl, orb_true_r.
    rewrite <- app_assoc. simpl. rewrite (dirname_last _ Hn).
    rewrite forallb_app, Hh. reflexivity.
  - rewrite endswith_sep_snoc, Hc.
    replace (is_empty (a ++ [c])) with false by now destruct a.
    simpl. rewrite (dirname_last _ Hn).
    rewrite !forallb_app. simpl. rewrite Hc, andb_false_r. simpl.
    rewrite rstrip_app_seps by reflexivity. now apply rstrip_last_nonsep.
Qed.

(** ** The version pattern *)

Lemma span_digits_app d t :
  forallb is_digit d = true ->
  match t with [] => True | c :: _ => is_digit c = false end ->
  span_digits (d ++ t) = (d, t).
Proof.
  intros Hd Ht. induction d as [|c d IH]; simpl.
  - destruct t as [|x t]; [reflexivity|]. simpl. now rewrite Ht.
  - simpl in Hd. apply andb_true_iff in Hd as [Hc Hd]. now rewrite Hc, (IH Hd).
Qed.

Lemma span_digits_spec s d t :
  span_digits s = (d, t) -> s = d ++ t /\ forallb is_digit d = true.
Proof.
  revert d t; induction s as [|c s IH]; intros d t; simpl.
  - intros [= <- <-]. now split.
  - destruct (is_digit c) eqn:Hc.
    + destruct (span_digits s) as [d' t'] eqn:E. intros [= <- <-].
      destruct (IH _ _ eq_refl) as [-> Hd]. split; [reflexivity|].
      simpl. now rewrite Hc.
    + intros [= <- <-]. now split.
Qed.

Lemma at_end_cases t : at_end t = true -> t = [] \/ t = [newline].
Proof.
  destruct t as [|c [|x t]]; simpl; [now left | | discriminate].
  intro H. right. now rewrite (is_newline_eq _ H).
Qed.

Lemma match_tail_intro v d e t :
  version_token v d e -> at_end t = true ->
  match_tail (v ++ d ++ e ++ t) = Some (v, d, e).
Proof.
  intros (v1 & n & k & -> & Hv & Hne & Hd & -> & Hn & Hk) Ht.
  simpl. rewrite Hv.
  rewrite span_digits_app; [| assumption | reflexivity].
  destruct d as [|c ds]; [congruence|].
  simpl. rewrite Hn, Hk, Ht. reflexivity.
Qed.

Lemma match_tail_spec s v d e :
  match_tail s = Some (v, d, e) ->
  version_token v d e /\ exists t, at_end t = true /\ s = v ++ d ++ e ++ t.
Proof.
  unfold match_tail. destruct s as [|x [|v1 r]]; try discriminate.
  destruct (is_dot x) eqn:Hx; [|discriminate].
  destruct (is_v v1) eqn:Hv; [|discriminate]. simpl.
  destruct (span_digits r) as [ds rest] eqn:E.
  destruct ds as [|c ds]; [discriminate|].
  destruct rest as [|x' [|n [|k t]]]; try discriminate.
  destruct (is_dot x') eqn:Hx'; [|discriminate].
  destruct (is_n n) eqn:Hn; [|discriminate].
  destruct (is_k k) eqn:Hk; [|discriminate].
  destruct (at_end t) eqn:Ht; [|discriminate]. simpl.
  intros [= <- <- <-].
  apply is_dot_eq in Hx, Hx'. subst x x'.
  destruct (span_digits_spec _ E) as [-> Hd].
  split.
  - exists v1, n, k. repeat split; auto; discriminate.
  - exists t. split; [assumption | reflexivity].
Qed.

Lemma dots_app s t : dots (s ++ t) = dots s + dots t.
Proof. unfold dots. now rewrite filter_app, length_app. Qed.

Lemma dots_digits d : forallb is_digit d = true -> dots d = 0.
Proof.
  unfold dots. induction d as [|c d IH]; simpl; [reflexivity|].
  intro H. apply andb_true_iff in H as [Hc Hd].
  now rewrite (digit_not_dot _ Hc), (IH Hd).
Qed.

Lemma dots_at_end t : at_end t = true -> dots t = 0.
Proof. intro H. destruct (at_end_cases _ H) as [-> | ->]; reflexivity. Qed.

Lemma dots_tail v d e t :
  version_token v d e -> at_end t = true -> dots (v ++ d ++ e ++ t) = 2.
Proof.
  intros (v1 & n & k & -> & Hv & Hne & Hd & -> & Hn & Hk) Ht.
  rewrite !dots_app, (dots_digits _ Hd), (dots_at_end _ Ht).
  unfold dots. simpl.
  now rewrite (v_not_dot _ Hv), (n_not_dot _ Hn), (k_not_dot _ Hk).
Qed.

(** The pattern's tail matches at one place only: nothing may stand before
    it. *)
Lemma match_tail_unique z v d e t :
  version_token v d e -> at_end t = true -> z <> [] ->
  match_tail (z ++ v ++ d ++ e ++ t) = None.
Proof.
  intros Htok Ht Hz.
  destruct (match_tail (z ++ v ++ d ++ e ++ t)) as [[[v' d'] e']|] eqn:E; [|reflexivity].
  exfalso. apply match_tail_spec in E as (Htok' & t' & Ht' & E).
  assert (D : dots (z ++ v ++ d ++ e ++ t) = 2)
    by (rewrite E; now apply dots_tail).
  rewrite dots_app, (dots_tail t Htok Ht) in D.
  destruct Htok' as (v1 & n & k & -> & _).
  destruct z as [|c z]; [congruence|].
  injection E as -> _. unfold dots in D. simpl in D. lia.
Qed.

Lemma lazy_name_found acc x v d e t :
  version_token v d e -> at_end t = true ->
  x <> [] -> absent newline x ->
  lazy_name acc (x ++ v ++ d ++ e ++ t) = Some (Groups (rev acc ++ x) v d e).
Proof.
  intros Htok Ht. revert acc; induction x as [|c x IH]; intros acc Hne Hnl; [congruence|].
  apply absent_cons in Hnl as [Hc Hnl].
  simpl. unfold is_newline. rewrite Hc.
  destruct x as [|c' x].
  - simpl. rewrite (match_tail_intro t Htok Ht). reflexivity.
  - rewrite (@match_tail_unique (c' :: x) _ _ _ t Htok Ht) by discriminate.
    rewrite IH by (assumption || discriminate).
    simpl. now rewrite <- app_assoc.
Qed.

Lemma re_search_eq s :
  re_search s =
  match lazy_name [] s with
  | Some g => Some g
  | None => match s with [] => None | _ :: r => re_search r end
  end.
Proof. destruct s; reflexivity. Qed.

Lemma re_search_found x v d e t :
  version_token v d e -> at_end t = true ->
  x <> [] -> absent newline x ->
  re_search (x ++ v ++ d ++ e ++ t) = Some (Groups x v d e).
Proof.
  intros Htok Ht Hne Hnl. rewrite re_search_eq.
  now rewrite (@lazy_name_found [] x _ _ _ t Htok Ht Hne Hnl).
Qed.

Lemma re_search_complete p x v d e t :
  version_token v d e -> at_end t = true ->
  x <> [] -> absent newline x ->
  exists g, re_search (p ++ x ++ v ++ d ++ e ++ t) = Some g.
Proof.
  intros Htok Ht Hne Hnl. induction p as [|c p IH].
  - eexists. simpl. apply re_search_found; assumption.
  - rewrite re_search_eq.
    destruct (lazy_name [] ((c :: p) ++ x ++ v ++ d ++ e ++ t)) as [g|]; [now exists g|].
    exact IH.
Qed.

Lemma lazy_name_spec s : forall acc g,
  lazy_name acc s = Some g ->
  exists x t,
    x <> [] /\ absent newline x /\ name_part g = rev acc ++ x /\
    version_token (v_part g) (version_num g) (ext_part g) /\
    at_end t = true /\
    s = x ++ v_part g ++ version_num g ++ ext_part g ++ t.
Proof.
  induction s as [|c s IH]; intros acc g; simpl; [discriminate|].
  destruct (is_newline c) eqn:Hc; [discriminate|].
  destruct (match_tail s) as [[[v d] e]|] eqn:E.
  - intros [= <-]. apply match_tail_spec in E as (Htok & t & Ht & ->).
    exists [c], t. simpl. repeat split; auto; try discriminate.
    apply absent_cons. split; [exact Hc | apply absent_nil].
  - intro H. apply IH in H as (x & t & Hne & Hnl & Hname & Htok & Ht & ->).
    exists (c :: x), t. repeat split; auto; try discriminate.
    + apply absent_cons. now split.
    + rewrite Hname. simpl. now rewrite <- app_assoc.
Qed.

Lemma re_search_spec s g :
  re_search s = Some g ->
  exists p t,
    name_part g <> [] /\ absent newline (name_part g) /\
    version_token (v_part g) (version_num g) (ext_part g) /\
    at_end t = true /\
    s = p ++ name_part g ++ v_part g ++ version_num g ++ ext_part g ++ t.
Proof.
  induction s as [|c s IH]; rewrite re_search_eq.
  - simpl. discriminate.
  - destruct (lazy_name [] (c :: s)) as [g'|] eqn:E.
    + intros [= ->]. apply lazy_name_spec in E as (x & t & Hne & Hnl & Hname & Htok & Ht & E).
      simpl in Hname. subst x. exists [], t. repeat split; auto.
    + intro H. apply IH in H as (p & t & H1 & H2 & H3 & H4 & ->).
      exists (c :: p), t. repeat split; auto.
Qed.

(** ** The next version path *)

Lemma next_version_matched p g :
  re_search (basename p) = Some g ->
  _get_next_version_path p
  = join (dirname p)
      (name_part g ++ v_part g
       ++ format_03d (int_of_digits (version_num g) + 1) ++ ext_part g).
Proof. intro H. unfold _get_next_version_path. now rewrite H. Qed.

Lemma next_version_unmatched p :
  re_search (basename p) = None ->
  _get_next_version_path p
  = join (dirname p)
      (fst (splitext (basename p)) ++ str ".v001" ++ snd (splitext (basename p))).
Proof.
  intro H. unfold _get_next_version_path. rewrite H.
  now destruct (splitext (basename p)).
Qed.

Lemma splitext_app b : fst (splitext b) ++ snd (splitext b) = b.
Proof.
  unfold splitext. destruct (rfind sep b <? rfind extsep b)%Z; simpl.
  - destruct (existsb _ _); simpl; [apply firstn_skipn | apply app_nil_r].
  - apply app_nil_r.
Qed.

Lemma splitext_last_dot r x :
  absent sep (r ++ extsep :: x) -> absent extsep x ->
  existsb (fun c => negb (is_dot c)) r = true ->
  splitext (r ++ extsep :: x) = (r, extsep :: x).
Proof.
  intros Hs Hx Hr. unfold splitext.
  rewrite (rfind_absent Hs), (rfind_last r Hx).
  replace (-1 <? Z.of_nat (List.length r))%Z with true by (symmetry; apply Z.ltb_lt; lia).
  rewrite Nat2Z.id. simpl Z.to_nat. rewrite Nat.sub_0_r. simpl skipn.
  now rewrite firstn_app_exact, skipn_app_exact, Hr.
Qed.

Lemma digits_absent_sep d : forallb is_digit d = true -> absent sep d.
Proof.
  induction d as [|c d IH]; simpl; intro H; [apply absent_nil|].
  apply andb_true_iff in H as [Hc Hd]. apply absent_cons. split; [|auto].
  exact (digit_not_sep _ Hc).
Qed.

Lemma token_absent_sep v d e :
  version_token v d e -> absent sep v /\ absent sep d /\ absent sep e.
Proof.
  intros (v1 & n & k & -> & Hv & _ & Hd & -> & Hn & Hk).
  repeat split.
  - unfold absent. simpl. fold (is_sep v1). now rewrite (v_not_sep _ Hv).
  - now apply digits_absent_sep.
  - unfold absent. simpl. fold (is_sep n) (is_sep k).
    now rewrite (n_not_sep _ Hn), (k_not_sep _ Hk).
Qed.

Lemma token_next v d e m :
  version_token v d e -> version_token v (format_03d m) e.
Proof.
  intros (v1 & n & k & -> & Hv & _ & _ & -> & Hn & Hk).
  exists v1, n, k. repeat split; auto.
  - apply format_03d_nonempty.
  - apply format_03d_digits.
Qed.

(** The new basename is free of separators, in both branches. *)
Lemma new_name_matched_no_sep p g m :
  re_search (basename p) = Some g ->
  absent sep (name_part g ++ v_part g ++ format_03d m ++ ext_part g).
Proof.
  intro H. pose proof (basename_no_sep p) as B.
  apply re_search_spec in H as (q & t & _ & _ & Htok & _ & E).
  rewrite E in B. rewrite !absent_app in B. destruct B as (_ & Bn & _).
  destruct (token_absent_sep (token_next m Htok)) as (Hv & Hd & He).
  rewrite !absent_app. tauto.
Qed.

Lemma new_name_unmatched_no_sep p :
  absent sep (fst (splitext (basename p)) ++ str ".v001" ++ snd (splitext (basename p))).
Proof.
  pose proof (basename_no_sep p) as B. rewrite <- (splitext_app (basename p)) in B.
  apply absent_app in B as [B1 B2]. rewrite !absent_app. repeat split; auto.
Qed.

Lemma next_version_cases p :
  exists new_name,
    absent sep new_name /\ _get_next_version_path p = join (dirname p) new_name.
Proof.
  destruct (re_search (basename p)) as [g|] eqn:E.
  - exists (name_part g ++ v_part g
             ++ format_03d (int_of_digits (version_num g) + 1) ++ ext_part g).
    split; [now apply new_name_matched_no_sep with (p := p) | now apply next_version_matched].
  - exists (fst (splitext (basename p)) ++ str ".v001" ++ snd (splitext (basename p))).
    split; [apply new_name_unmatched_no_sep | now apply next_version_unmatched].
Qed.

(** The result on a basename that carries a version token before [.nk]. *)
Lemma next_version_of_token p x v d e :
  basename p = x ++ v ++ d ++ e ->
  version_token v d e -> x <> [] -> absent newline x ->
  _get_next_version_path p
  = join (dirname p) (x ++ v ++ format_03d (int_of_digits d + 1) ++ e).
Proof.
  intros Hb Htok Hne Hnl.
  assert (R : re_search (basename p) = Some (Groups x v d e)).
  { rewrite Hb. pose proof (@re_search_found x v d e [] Htok eq_refl Hne Hnl) as R.
    now rewrite app_nil_r in R. }
  now rewrite (next_version_matched _ R).
Qed.

Lemma forallb_rev (A : Type) (f : A -> bool) (l : list A) :
  forallb f (rev l) = forallb f l.
Proof.
  induction l as [|x l IH]; simpl; [reflexivity|].
  rewrite forallb_app, IH. simpl. rewrite andb_true_r. apply andb_comm.
Qed.

Lemma digits_prefix_unique l1 : forall l2 x y r1 r2,
  forallb is_digit l1 = true -> forallb is_digit l2 = true ->
  is_digit x = false -> is_digit y = false ->
  l1 ++ x :: r1 = l2 ++ y :: r2 -> l1 = l2.
Proof.
  induction l1 as [|c l1 IH]; intros [|c' l2] x y r1 r2 H1 H2 Hx Hy E; simpl in *.
  - reflexivity.
  - injection E as -> _. apply andb_true_iff in H2 as [H2 _]. congruence.
  - injection E as -> _. apply andb_true_iff in H1 as [H1 _]. congruence.
  - injection E as -> E. apply andb_true_iff in H1 as [_ H1].
    apply andb_true_iff in H2 as [_ H2]. f_equal.
    apply (IH l2 x y r1 r2); assumption.
Qed.

(** Two readings of one string as "something, then the pattern's tail"
    agree on the digits. *)
Lemma tail_unique a v d e t a' v' d' e' t' :
  version_token v d e -> at_end t = true ->
  version_token v' d' e' -> at_end t' = true ->
  a ++ v ++ d ++ e ++ t = a' ++ v' ++ d' ++ e' ++ t' -> d = d'.
Proof.
  intros (v1 & n & k & -> & Hv & _ & Hd & -> & Hn & Hk) Ht
         (v1' & n' & k' & -> & Hv' & _ & Hd' & -> & Hn' & Hk') Ht' E.
  apply (f_equal (@rev ascii)) in E. rewrite !rev_app_distr in E.
  assert (Hr : rev d = rev d').
  { apply v_not_digit in Hv, Hv'. rewrite <- forallb_rev in Hd, Hd'.
    apply k_not_newline in Hk as Hkn. apply k_not_newline in Hk' as Hkn'.
    destruct (at_end_cases _ Ht) as [-> | ->], (at_end_cases _ Ht') as [-> | ->];
      simpl in E; rewrite <- ?app_assoc in E; simpl in E.
    - injection E as _ _ E.
      exact (@digits_prefix_unique (rev d) (rev d') v1 v1' _ _ Hd Hd' Hv Hv' E).
    - injection E as -> _. discriminate.
    - injection E as <- _. discriminate.
    - injection E as _ _ E.
      exact (@digits_prefix_unique (rev d) (rev d') v1 v1' _ _ Hd Hd' Hv Hv' E). }
  rewrite <- (rev_involutive d), <- (rev_involutive d'). now f_equal.
Qed.

Lemma at_end_absent_dot t : at_end t = true -> absent extsep t.
Proof. intro H. destruct (at_end_cases _ H) as [-> | ->]; reflexivity. Qed.

Lemma ext_absent_dot n k t :
  is_n n = true -> is_k k = true -> at_end t = true -> absent extsep (n :: k :: t).
Proof.
  intros Hn Hk Ht. apply absent_cons. split; [exact (n_not_dot _ Hn)|].
  apply absent_cons. split; [exact (k_not_dot _ Hk)|]. now apply at_end_absent_dot.
Qed.

(** A basename the pattern matches has a version suffix in the words of
    the spec. *)
Lemma matched_has_version_suffix b g :
  absent sep b -> re_search b = Some g -> has_version_suffix b = true.
Proof.
  intros Hb H.
  apply re_search_spec in H as (q & t & _ & _ & Htok & Ht & E).
  destruct Htok as (v1 & n & k & Ev & Hv & Hne & Hd & Ee & Hn & Hk).
  rewrite Ev, Ee in E. clear Ev Ee.
  set (r := q ++ name_part g ++ [extsep; v1] ++ version_num g).
  assert (Er : b = r ++ extsep :: n :: k :: t).
  { rewrite E. unfold r. rewrite <- !app_assoc. reflexivity. }
  assert (Hr : existsb (fun c => negb (is_dot c)) r = true).
  { unfold r. rewrite !existsb_app. simpl. rewrite (v_not_dot _ Hv). simpl.
    now rewrite !orb_true_r. }
  unfold has_version_suffix, version_token_of. rewrite Er.
  rewrite splitext_last_dot; [| now rewrite <- Er | now apply ext_absent_dot | exact Hr].
  assert (Rr : rev r = rev (version_num g) ++ v1 :: extsep :: rev (q ++ name_part g)).
  { unfold r. rewrite (app_assoc q), rev_app_distr, rev_app_distr.
    simpl. now rewrite <- app_assoc. }
  rewrite Rr, span_digits_app;
    [| now rewrite forallb_rev | exact (v_not_digit _ Hv)].
  destruct (rev (version_num g)) as [|c ds] eqn:Ed.
  - apply (f_equal (@rev ascii)) in Ed. rewrite rev_involutive in Ed. simpl in Ed. congruence.
  - now rewrite Hv.
Qed.

Lemma re_search_next p g :
  re_search (basename p) = Some g ->
  re_search (basename (_get_next_version_path p))
  = Some (Groups (name_part g) (v_part g)
            (format_03d (int_of_digits (version_num g) + 1)) (ext_part g)).
Proof.
  intro H. rewrite (next_version_matched _ H).
  rewrite basename_join by (now apply new_name_matched_no_sep with (p := p)).
  apply re_search_spec in H as (q & t & Hne & Hnl & Htok & _ & _).
  pose proof (@re_search_found (name_part g) (v_part g)
                (format_03d (int_of_digits (version_num g) + 1)) (ext_part g) []
                (token_next _ Htok) eq_refl Hne Hnl) as R.
  now rewrite app_nil_r in R.
Qed.

Lemma version_of_next p g :
  re_search (basename p) = Some g ->
  version_of (_get_next_version_path p) = Some (int_of_digits (version_num g) + 1)%N.
Proof.
  intro H. unfold version_of. rewrite (re_search_next _ H). simpl.
  now rewrite int_of_format_03d.
Qed.

Lemma version_of_next_twice p m :
  version_of p = Some m ->
  version_of (_get_next_version_path p) = Some (m + 1)%N.
Proof.
  unfold version_of at 1. destruct (re_search (basename p)) as [g|] eqn:E; [|discriminate].
  intros [= <-]. now apply version_of_next.
Qed.

(** ** Claims on [_get_next_version_path] *)

(** C1, as stated, fails: the pattern asks for the extension [.nk], so a
    versioned name with another extension takes the other branch and gets
    a second token; so does a name whose [X] is empty, since [(.+?)] needs
    a character; and a line feed in [X] cuts the name part short. *)
Lemma next_version_path_any_extension :
  _get_next_version_path (str "a.v001.txt") = str "a.v001.v001.txt" /\
  _get_next_version_path (str "a.v001.txt") <> str "a.v002.txt" /\
  _get_next_version_path (str ".v001.nk") = str ".v001.v001.nk" /\
  _get_next_version_path (str ".v001.nk") <> str ".v002.nk" /\
  _get_next_version_path (str "a" ++ newline :: str "b.v001.nk") = str "b.v002.nk" /\
  _get_next_version_path (str "a" ++ newline :: str "b.v001.nk")
    <> str "a" ++ newline :: str "b.v002.nk".
Proof. repeat split; (reflexivity || (vm_compute; discriminate)). Qed.

(** C1 (amended): for every path whose basename is [X.vNNN.nk] -- [X]
    non-empty and free of line feeds, the [.v] and the [.nk] in any case,
    [NNN] a non-empty string of digits -- [_get_next_version_path] returns
    the path in the same directory whose basename is [X], the same [.v],
    [NNN+1] written in decimal and zero-padded to at least three digits,
    and the same extension. *)
Theorem next_version_path_increments p x v d e :
  basename p = x ++ v ++ d ++ e ->
  version_token v d e ->
  x <> [] -> absent newline x ->
  let digits := format_03d (int_of_digits d + 1) in
  _get_next_version_path p = join (dirname p) (x ++ v ++ digits ++ e)
  /\ basename (_get_next_version_path p) = x ++ v ++ digits ++ e
  /\ int_of_digits digits = (int_of_digits d + 1)%N
  /\ forallb is_digit digits = true
  /\ 3 <= List.length digits.
Proof.
  intros Hb Htok Hne Hnl digits.
  pose proof (next_version_of_token p Hb Htok Hne Hnl) as H.
  split; [exact H|]. split.
  - rewrite H. apply basename_join.
    pose proof (basename_no_sep p) as B. rewrite Hb in B.
    rewrite !absent_app in B. destruct B as (Bx & _).
    destruct (token_absent_sep (token_next (int_of_digits d + 1) Htok)) as (Hv & Hd & He).
    rewrite !absent_app. tauto.
  - split; [apply int_of_format_03d|].
    split; [apply format_03d_digits | apply format_03d_length].
Qed.

Lemma next_version_path_increments_witness :
  _get_next_version_path (str "/jobs/sq01/shot010.V099.Nk") = str "/jobs/sq01/shot010.V100.Nk".
Proof.
  refine (proj1 (@next_version_path_increments
                   (str "/jobs/sq01/shot010.V099.Nk")
                   (str "shot010") (str ".V") (str "099") (str ".Nk") _ _ _ _)).
  - reflexivity.
  - exists "V"%char, "N"%char, "k"%char. repeat split; discriminate.
  - discriminate.
  - reflexivity.
Defined.

(** C2: for every path whose basename has no version suffix -- once
    [splitext] has taken the extension off, the name does not end in [.v]
    (any case) and digits -- [_get_next_version_path] returns the path in
    the same directory whose basename is the name, [.v001], and the
    extension as it was. *)
Theorem next_version_path_first_version p name ext :
  has_version_suffix (basename p) = false ->
  splitext (basename p) = (name, ext) ->
  _get_next_version_path p = join (dirname p) (name ++ str ".v001" ++ ext)
  /\ basename (_get_next_version_path p) = name ++ str ".v001" ++ ext
  /\ name ++ ext = basename p.
Proof.
  intros Hs Hsplit.
  assert (R : re_search (basename p) = None).
  { destruct (re_search (basename p)) as [g|] eqn:E; [|reflexivity].
    rewrite (matched_has_version_suffix (basename_no_sep p) E) in Hs. discriminate. }
  pose proof (next_version_unmatched _ R) as H.
  pose proof (new_name_unmatched_no_sep p) as A.
  pose proof (splitext_app (basename p)) as S.
  rewrite Hsplit in H, A, S. simpl in H, A, S.
  split; [exact H|]. split; [|exact S].
  rewrite H. now apply basename_join.
Qed.

Lemma next_version_path_first_version_witness :
  _get_next_version_path (str "/jobs/render.nk") = str "/jobs/render.v001.nk".
Proof.
  refine (proj1 (@next_version_path_first_version
                   (str "/jobs/render.nk") (str "render") (str ".nk") _ _));
    reflexivity.
Defined.

(** C3, as stated, fails: from [a.txt] the two results are [a.v001.txt]
    and [a.v001.v001.txt]; the pattern reads no version in either, and the
    token before the extension is [v001] in both.  Nor does the pattern
    read a version in the result for [..nk] (a name of dots only, which
    [splitext] leaves whole) or for a name that ends in a line feed. *)
Lemma next_version_twice_repeats :
  _get_next_version_path (str "a.txt") = str "a.v001.txt" /\
  _get_next_version_path (_get_next_version_path (str "a.txt")) = str "a.v001.v001.txt" /\
  version_of (_get_next_version_path (str "a.txt")) = None /\
  version_of (_get_next_version_path (_get_next_version_path (str "a.txt"))) = None /\
  version_token_of (basename (_get_next_version_path (str "a.txt"))) = Some 1%N /\
  version_token_of (basename (_get_next_version_path (_get_next_version_path (str "a.txt"))))
    = Some 1%N /\
  ~ (exists m1 m2,
        version_of (_get_next_version_path (str "a.txt")) = Some m1 /\
        version_of (_get_next_version_path (_get_next_version_path (str "a.txt"))) = Some m2 /\
        (m1 < m2)%N) /\
  _get_next_version_path (_get_next_version_path (str "..nk")) = str "..nk.v001.v001" /\
  version_of (_get_next_version_path (str "..nk")) = None /\
  _get_next_version_path (_get_next_version_path (str "a" ++ newline :: str ".nk"))
    = str "a" ++ newline :: str ".v001.v001.nk" /\
  version_of (_get_next_version_path (str "a" ++ newline :: str ".nk")) = None.
Proof.
  repeat split; try reflexivity.
  intros (m1 & m2 & H & _). vm_compute in H. discriminate.
Qed.

(** C3 (amended): for every path whose basename ends in [.nk] (any case,
    a last line feed after it allowed), after a name that has a character
    other than ['.'] and does not end in a line feed, the two results of
    applying [_get_next_version_path] twice carry version numbers [m] and
    [m + 1]: strictly increasing, never a repeat. *)
Theorem next_version_twice_increases p y n k t :
  basename p = y ++ [extsep; n; k] ++ t ->
  is_n n = true -> is_k k = true -> at_end t = true ->
  existsb (fun c => negb (is_dot c)) y = true ->
  (forall y0, y <> y0 ++ [newline]) ->
  exists m,
    version_of (_get_next_version_path p) = Some m /\
    version_of (_get_next_version_path (_get_next_version_path p)) = Some (m + 1)%N /\
    (m < m + 1)%N.
Proof.
  intros Hb Hn Hk Ht Hy Hlast.
  assert (V : exists m, version_of (_get_next_version_path p) = Some m).
  { destruct (re_search (basename p)) as [g|] eqn:R.
    - exists (int_of_digits (version_num g) + 1)%N. exact (version_of_next _ R).
    - assert (Hy0 : y <> []) by (intros ->; discriminate).
      destruct (exists_last Hy0) as (y0 & c & ->).
      assert (Hc : is_newline c = false).
      { destruct (is_newline c) eqn:Ec; [|reflexivity].
        apply is_newline_eq in Ec as ->. now elim (Hlast y0). }
      pose proof (basename_no_sep p) as B. rewrite Hb in B.
      pose proof (next_version_unmatched _ R) as H.
      pose proof (new_name_unmatched_no_sep p) as A.
      rewrite Hb in H, A.
      change ([extsep; n; k] ++ t) with (extsep :: n :: k :: t) in *.
      rewrite (@splitext_last_dot (y0 ++ [c]) (n :: k :: t) B
                 (@ext_absent_dot n k t Hn Hk Ht) Hy) in H, A.
      simpl fst in H, A. simpl snd in H, A.
      assert (Htok : version_token [extsep; "v"%char] (str "001") [extsep; n; k]).
      { exists "v"%char, n, k. repeat split; auto; discriminate. }
      assert (Enew : (y0 ++ [c]) ++ str ".v001" ++ extsep :: n :: k :: t
                     = y0 ++ [c] ++ [extsep; "v"%char] ++ str "001" ++ [extsep; n; k] ++ t)
        by (now rewrite <- app_assoc).
      assert (Hcx : absent newline [c])
        by (apply absent_cons; split; [exact Hc | apply absent_nil]).
      destruct (@re_search_complete y0 [c] _ _ _ t Htok Ht ltac:(discriminate) Hcx)
        as (g & G).
      unfold version_of. rewrite H, (basename_join _ A), Enew, G.
      eexists. reflexivity. }
  destruct V as (m & V). exists m. split; [exact V|]. split.
  - now apply version_of_next_twice.
  - lia.
Qed.

Lemma next_version_twice_increases_witness :
  exists m,
    version_of (_get_next_version_path (str "/jobs/render.nk")) = Some m /\
    version_of (_get_next_version_path (_get_next_version_path (str "/jobs/render.nk")))
    = Some (m + 1)%N /\
    (m < m + 1)%N.
Proof.
  apply (@next_version_twice_increases (str "/jobs/render.nk") (str "render")
           "n"%char "k"%char [] eq_refl eq_refl eq_refl eq_refl eq_refl).
  intros y0 H. apply (f_equal (@rev ascii)) in H. rewrite rev_app_distr in H.
  discriminate.
Defined.

(** C9 at a basename with a line feed: from [a.v001], line feed,
    [b.v002.nk] the result is [b.v003.nk]; the final token is incremented,
    the earlier token [.v001] is lost with everything up to the line
    feed. *)
Theorem next_version_path_line_feed :
  _get_next_version_path (str "a.v001" ++ newline :: str "b.v002.nk") = str "b.v003.nk" /\
  re_search (str "a.v001" ++ newline :: str "b.v002.nk")
  = Some (Groups (str "b") (str ".v") (str "002") (str ".nk")) /\
  _get_next_version_path (str "a.v001.v002.nk") = str "a.v001.v003.nk".
Proof. repeat split; reflexivity. Qed.

(** C10: for every path, the directory name of the result of
    [_get_next_version_path] is the directory name of the path. *)
Theorem next_version_path_keeps_dirname p :
  dirname (_get_next_version_path p) = dirname p.
Proof.
  destruct (next_version_cases p) as (new_name & Hn & ->).
  now apply dirname_join.
Qed.

(** ** The plain-save branch is never taken *)

Lemma lower_app a b : lower (a ++ b) = lower a ++ lower b.
Proof. apply map_app. Qed.

Lemma lower_length s : List.length (lower s) = List.length s.
Proof. apply length_map. Qed.

Lemma absent_sep_lower s : absent sep s -> absent sep (lower s).
Proof.
  induction s as [|c s IH]; intro H; [apply absent_nil|].
  apply absent_cons in H as [Hc Hs]. simpl. apply absent_cons. split; [|auto].
  fold (is_sep (lower_char c)). now rewrite lower_char_sep.
Qed.

Lemma basename_lower p : basename (lower p) = lower (basename p).
Proof.
  destruct (last_occurrence sep p) as [H | (h & b & -> & H)].
  - rewrite (basename_absent H). now apply basename_absent, absent_sep_lower.
  - rewrite (basename_last h H), lower_app. simpl.
    change (lower_char sep) with sep.
    now apply basename_last, absent_sep_lower.
Qed.

Lemma lower_char_v c : is_v c = true -> is_v (lower_char c) = true.
Proof. ascii_cases c; vm_compute; congruence. Qed.

Lemma lower_char_n c : is_n c = true -> is_n (lower_char c) = true.
Proof. ascii_cases c; vm_compute; congruence. Qed.

Lemma lower_char_k c : is_k c = true -> is_k (lower_char c) = true.
Proof. ascii_cases c; vm_compute; congruence. Qed.

Lemma lower_digits d : forallb is_digit d = true -> lower d = d.
Proof.
  induction d as [|c d IH]; simpl; [reflexivity|].
  intro H. apply andb_true_iff in H as [Hc Hd].
  now rewrite (lower_char_digit _ Hc), (IH Hd).
Qed.

Lemma token_lower v d e :
  version_token v d e -> version_token (lower v) d (lower e).
Proof.
  intros (v1 & n & k & -> & Hv & Hne & Hd & -> & Hn & Hk).
  exists (lower_char v1), (lower_char n), (lower_char k).
  repeat split; auto using lower_char_v, lower_char_n, lower_char_k.
Qed.

Lemma at_end_lower t : at_end t = true -> at_end (lower t) = true.
Proof. intro H. destruct (at_end_cases _ H) as [-> | ->]; reflexivity. Qed.

(** A path and its next version differ, also when case is ignored: the
    comparison [current_path.lower() == next_version_path.lower()] is
    never true. *)
Lemma lower_next_differs p : lower p <> lower (_get_next_version_path p).
Proof.
  intro Heq. apply (f_equal basename) in Heq. rewrite !basename_lower in Heq.
  destruct (re_search (basename p)) as [g|] eqn:R.
  - rewrite (next_version_matched _ R) in Heq.
    rewrite basename_join in Heq by (now apply new_name_matched_no_sep with (p := p)).
    apply re_search_spec in R as (q & t & _ & _ & Htok & Ht & E).
    rewrite E in Heq. clear E.
    set (m := (int_of_digits (version_num g) + 1)%N) in *.
    pose proof (token_next m Htok) as Htok'.
    assert (Hd : forallb is_digit (version_num g) = true)
      by (destruct Htok as (? & ? & ? & _ & _ & _ & Hd & _); exact Hd).
    rewrite !lower_app in Heq.
    rewrite (lower_digits _ Hd), (lower_digits _ (format_03d_digits m)) in Heq.
    rewrite (app_assoc (lower q)) in Heq.
    rewrite <- (app_nil_r (lower (ext_part g))) in Heq at 2.
    pose proof (@tail_unique _ _ _ _ (lower t) _ _ _ _ []
                  (token_lower Htok) (at_end_lower _ Ht)
                  (token_lower Htok') eq_refl Heq) as D.
    pose proof (int_of_format_03d m) as I. rewrite <- D in I. unfold m in I. lia.
  - rewrite (next_version_unmatched _ R) in Heq.
    rewrite basename_join in Heq by apply new_name_unmatched_no_sep.
    apply (f_equal (@List.length ascii)) in Heq. rewrite !lower_length in Heq.
    rewrite <- (splitext_app (basename p)) in Heq at 1.
    rewrite !length_app in Heq. simpl in Heq. lia.
Qed.

Lemma pystr_eqb_false a b : a <> b -> pystr_eqb a b = false.
Proof. intro H. unfold pystr_eqb. now destruct (list_eq_dec ascii_dec a b). Qed.

Lemma never_plain_save p :
  pystr_eqb (lower p) (lower (_get_next_version_path p)) = false.
Proof. apply pystr_eqb_false, lower_next_differs. Qed.

(** ** The timer methods *)

Lemma Qgtb_true_iff a b : Qgtb a b = true <-> (b < a)%Q.
Proof.
  unfold Qgtb. rewrite negb_true_iff. split.
  - intro H. apply Qnot_le_lt. intro L. apply Qle_bool_iff in L. congruence.
  - intro H. destruct (Qle_bool a b) eqn:E; [|reflexivity].
    apply Qle_bool_iff in E. now apply Qlt_not_le in H.
Qed.

Lemma Qgtb_false_iff a b : Qgtb a b = false <-> (a <= b)%Q.
Proof.
  unfold Qgtb. rewrite negb_false_iff. apply Qle_bool_iff.
Qed.

Lemma start_or_reset_timer_same :
  VersionUp12.start_or_reset_timer = VersionUp.start_or_reset_timer.
Proof. reflexivity. Qed.

Lemma no_document_iff p :
  is_empty p || pystr_eqb p (str "Root") = true <-> p = [] \/ p = str "Root".
Proof.
  rewrite orb_true_iff. unfold pystr_eqb. split.
  - intros [H | H]; [left; now destruct p | right].
    now destruct (list_eq_dec ascii_dec p (str "Root")).
  - intros [-> | ->]; [now left | right].
    now destruct (list_eq_dec ascii_dec (str "Root") (str "Root")).
Qed.

Lemma has_document_iff p :
  is_empty p || pystr_eqb p (str "Root") = false <-> p <> [] /\ p <> str "Root".
Proof.
  split.
  - intro H. split; intro E; subst p; discriminate.
  - intros [H1 H2]. rewrite (pystr_eqb_false H2). destruct p; [congruence | reflexivity].
Qed.

(** What [start_or_reset_timer] adds to the trace: its own entry, then
    timer calls and a log line, no save. *)
Lemma start_or_reset_timer_trace c :
  exists evs,
    trace (snd (run VersionUp.start_or_reset_timer c))
    = trace (snd c) ++ EvStartOrResetTimer :: evs
    /\ saves evs = [].
Proof.
  destruct c as [[bi it tm lt] [clk rn pd nh tr]].
  unfold run, VersionUp.start_or_reset_timer, VersionUp._track_interaction,
    bind, emit, time_time, set_last_interaction_time, get_self, nuke_root_name,
    timer_cancel, timer_start, set_timer, print, emit, ret.
  cbn [fst snd timer clock root_name pending next_handle trace backup_interval].
  destruct tm as [t|];
    cbn [fst snd timer clock root_name pending next_handle trace backup_interval];
    destruct (negb (is_empty rn) && negb (pystr_eqb rn (str "Root")));
    cbn [fst snd timer clock root_name pending next_handle trace backup_interval];
    rewrite <- ?app_assoc; cbn [app]; eexists; (split; [reflexivity | reflexivity]).
Qed.

Section Execute.

Context `{Nuke}.

Lemma execute_idle c :
  let d := (clock (snd c) - last_interaction_time (fst c))%Q in
  Qgtb d (idle_threshold (fst c)) = true ->
  VersionUp._execute_version_up c
  = (print (LogIdle d) ;; VersionUp.start_or_reset_timer) c
  /\ VersionUp12._execute_version_up c
     = (print (LogIdle d) ;; VersionUp12.start_or_reset_timer) c.
Proof.
  intros d Hd. subst d.
  unfold VersionUp._execute_version_up, VersionUp12._execute_version_up.
  unfold bind, time_time, get_self. cbn [fst snd]. rewrite Hd.
  split; reflexivity.
Qed.

Lemma execute_no_document c :
  let d := (clock (snd c) - last_interaction_time (fst c))%Q in
  Qgtb d (idle_threshold (fst c)) = false ->
  is_empty (root_name (snd c)) || pystr_eqb (root_name (snd c)) (str "Root") = true ->
  VersionUp._execute_version_up c = (tt, c)
  /\ VersionUp12._execute_version_up c = (tt, c).
Proof.
  intros d Hd Hp. subst d.
  unfold VersionUp._execute_version_up, VersionUp12._execute_version_up,
    bind, time_time, get_self, nuke_root_name.
  cbn [fst snd]. rewrite Hd, Hp. split; reflexivity.
Qed.

Lemma execute_save_as c :
  let d := (clock (snd c) - last_interaction_time (fst c))%Q in
  let next_version_path := _get_next_version_path (root_name (snd c)) in
  Qgtb d (idle_threshold (fst c)) = false ->
  is_empty (root_name (snd c)) || pystr_eqb (root_name (snd c)) (str "Root") = false ->
  VersionUp._execute_version_up c
  = (print (LogVersioning (basename next_version_path)) ;;
     nuke_scriptSaveAs next_version_path ;;
     VersionUp.start_or_reset_timer) c
  /\ VersionUp12._execute_version_up c
     = (print (LogVersioning (basename next_version_path)) ;;
        nuke_scriptSaveAs next_version_path ;;
        VersionUp12.start_or_reset_timer) c.
Proof.
  intros d next Hd Hp. subst d next.
  unfold VersionUp._execute_version_up, VersionUp12._execute_version_up.
  unfold bind, time_time, get_self, nuke_root_name.
  cbn [fst snd]. rewrite Hd, Hp.
  rewrite never_plain_save. split; reflexivity.
Qed.

Lemma execute_same c :
  VersionUp12._execute_version_up c = VersionUp._execute_version_up c.
Proof.
  destruct (Qgtb (clock (snd c) - last_interaction_time (fst c)) (idle_threshold (fst c)))
    eqn:Hd.
  - destruct (execute_idle c Hd) as [E1 E2]. now rewrite E1, E2.
  - destruct (is_empty (root_name (snd c)) || pystr_eqb (root_name (snd c)) (str "Root"))
      eqn:Hp.
    + destruct (execute_no_document c Hd Hp) as [E1 E2]. now rewrite E1, E2.
    + destruct (execute_save_as c Hd Hp) as [E1 E2]. now rewrite E1, E2.
Qed.

End Execute.

Lemma bind_assoc_at (A B C : Type) (m : M A) (k : A -> M B) (j : B -> M C) c :
  bind (bind m k) j c = bind m (fun a => bind (k a) j) c.
Proof. unfold bind. now destruct (m c). Qed.

Lemma print_trace l c :
  trace (snd (snd (print l c))) = trace (snd c) ++ [EvPrint l].
Proof. reflexivity. Qed.

(** ** Claims on [_execute_version_up] *)

(** C4: when the idle duration (the clock minus the last interaction time)
    exceeds the idle threshold, [_execute_version_up] prints the idle line
    and then is [start_or_reset_timer]; what it adds to the trace is that
    line, the entry into [start_or_reset_timer] and calls that are no
    save.  Both files. *)
Theorem idle_skips_save_and_reschedules `{Nuke} c :
  (idle_threshold (fst c) < clock (snd c) - last_interaction_time (fst c))%Q ->
  let d := (clock (snd c) - last_interaction_time (fst c))%Q in
  VersionUp._execute_version_up c
  = (print (LogIdle d) ;; VersionUp.start_or_reset_timer) c
  /\ VersionUp12._execute_version_up c
     = (print (LogIdle d) ;; VersionUp12.start_or_reset_timer) c
  /\ exists evs,
       trace (snd (run VersionUp._execute_version_up c))
       = trace (snd c) ++ EvPrint (LogIdle d) :: EvStartOrResetTimer :: evs
       /\ trace (snd (run VersionUp12._execute_version_up c))
          = trace (snd c) ++ EvPrint (LogIdle d) :: EvStartOrResetTimer :: evs
       /\ saves evs = [].
Proof.
  intros Hidle d. apply Qgtb_true_iff in Hidle.
  destruct (execute_idle c Hidle) as [E1 E2]. fold d in E1, E2.
  split; [exact E1|]. split; [exact E2|].
  destruct (start_or_reset_timer_trace (snd (print (LogIdle d) c))) as (evs & T & S).
  exists evs. unfold run in T |- *. rewrite E1, E2, start_or_reset_timer_same.
  change (snd ((print (LogIdle d) ;; VersionUp.start_or_reset_timer) c))
    with (snd (VersionUp.start_or_reset_timer (snd (print (LogIdle d) c)))).
  rewrite T, print_trace, <- app_assoc. repeat split; auto.
Qed.

Lemma idle_skips_save_and_reschedules_witness :
  let c := session 1000 (str "shot.v002.nk") in
  exists evs,
    trace (snd (run (@VersionUp._execute_version_up callbacks_host) c))
    = trace (snd c) ++ EvPrint (LogIdle (1000 - 100)) :: EvStartOrResetTimer :: evs
    /\ trace (snd (run (@VersionUp12._execute_version_up callbacks_host) c))
       = trace (snd c) ++ EvPrint (LogIdle (1000 - 100)) :: EvStartOrResetTimer :: evs
    /\ saves evs = [].
Proof.
  intro c.
  refine (proj2 (proj2 (@idle_skips_save_and_reschedules callbacks_host c _))).
  reflexivity.
Defined.

(** C7: when the idle duration is at most the idle threshold and the
    current path is empty or ["Root"], [_execute_version_up] returns with
    nothing done: state, host and trace are as they were, so no save and
    no save-as.  Both files. *)
Theorem no_document_no_save `{Nuke} c :
  (clock (snd c) - last_interaction_time (fst c) <= idle_threshold (fst c))%Q ->
  root_name (snd c) = [] \/ root_name (snd c) = str "Root" ->
  VersionUp._execute_version_up c = (tt, c)
  /\ VersionUp12._execute_version_up c = (tt, c)
  /\ saves (trace (snd (run VersionUp._execute_version_up c))) = saves (trace (snd c))
  /\ saves (trace (snd (run VersionUp12._execute_version_up c))) = saves (trace (snd c)).
Proof.
  intros Hactive Hdoc. apply Qgtb_false_iff in Hactive. apply no_document_iff in Hdoc.
  destruct (execute_no_document c Hactive Hdoc) as [E1 E2].
  unfold run. rewrite E1, E2. repeat split.
Qed.

Lemma no_document_no_save_witness :
  let c := session 200 (str "Root") in
  @VersionUp._execute_version_up callbacks_host c = (tt, c)
  /\ @VersionUp12._execute_version_up callbacks_host c = (tt, c)
  /\ saves (trace (snd (run (@VersionUp._execute_version_up callbacks_host) c)))
     = saves (trace (snd c))
  /\ saves (trace (snd (run (@VersionUp12._execute_version_up callbacks_host) c)))
     = saves (trace (snd c)).
Proof.
  intro c. apply (@no_document_no_save callbacks_host c).
  - vm_compute. discriminate.
  - right. reflexivity.
Defined.

(** C5, as stated, fails: with the user active and no document open the
    method returns at once; nothing is added to the trace, and
    [start_or_reset_timer] is not entered.  Both files. *)
Lemma execute_without_document_returns :
  let c := session 200 (str "Root") in
  @VersionUp._execute_version_up callbacks_host c = (tt, c)
  /\ @VersionUp12._execute_version_up callbacks_host c = (tt, c)
  /\ ~ In EvStartOrResetTimer
         (trace (snd (run (@VersionUp._execute_version_up callbacks_host) c)))
  /\ ~ In EvStartOrResetTimer
         (trace (snd (run (@VersionUp12._execute_version_up callbacks_host) c))).
Proof.
  intro c. repeat split; try reflexivity; intros [].
Qed.

(** C5 (amended): when the user is idle, or a document is open (the
    current path is neither empty nor ["Root"]), [_execute_version_up]
    ends with [start_or_reset_timer]: it is the idle line, or the
    versioning line and the save-as, followed by [start_or_reset_timer],
    whose entry is what the trace shows next.  Both files. *)
Theorem execute_ends_with_reschedule `{Nuke} c :
  let d := (clock (snd c) - last_interaction_time (fst c))%Q in
  let p := root_name (snd c) in
  (idle_threshold (fst c) < d)%Q \/ (p <> [] /\ p <> str "Root") ->
  let before : M unit :=
    if Qgtb d (idle_threshold (fst c)) then print (LogIdle d)
    else (print (LogVersioning (basename (_get_next_version_path p))) ;;
          nuke_scriptSaveAs (_get_next_version_path p)) in
  VersionUp._execute_version_up c = (before ;; VersionUp.start_or_reset_timer) c
  /\ VersionUp12._execute_version_up c = (before ;; VersionUp12.start_or_reset_timer) c
  /\ exists evs,
       trace (snd (run VersionUp._execute_version_up c))
       = trace (snd (run before c)) ++ EvStartOrResetTimer :: evs
       /\ trace (snd (run VersionUp12._execute_version_up c))
          = trace (snd (run before c)) ++ EvStartOrResetTimer :: evs
       /\ saves evs = [].
Proof.
  intros d p Hcase before.
  assert (E : VersionUp._execute_version_up c = (before ;; VersionUp.start_or_reset_timer) c
              /\ VersionUp12._execute_version_up c
                 = (before ;; VersionUp12.start_or_reset_timer) c).
  { unfold before. destruct (Qgtb d (idle_threshold (fst c))) eqn:Hd.
    - exact (execute_idle c Hd).
    - destruct Hcase as [Hidle | Hdoc].
      + apply Qgtb_true_iff in Hidle. rewrite Hd in Hidle. discriminate.
      + apply has_document_iff in Hdoc.
        destruct (execute_save_as c Hd Hdoc) as [E1 E2].
        rewrite !bind_assoc_at. now split. }
  destruct E as [E1 E2]. split; [exact E1|]. split; [exact E2|].
  destruct (start_or_reset_timer_trace (run before c)) as (evs & T & S).
  exists evs. unfold run in T |- *. rewrite E1, E2, start_or_reset_timer_same.
  assert (X : snd ((before ;; VersionUp.start_or_reset_timer) c)
              = snd (VersionUp.start_or_reset_timer (snd (before c)))).
  { unfold bind. now destruct (before c). }
  rewrite X, T. repeat split; auto.
Qed.

Lemma execute_ends_with_reschedule_witness :
  let c := session 200 (str "shot.v002.nk") in
  exists evs,
    trace (snd (run (@VersionUp._execute_version_up callbacks_host) c))
    = trace (snd (run (print (LogVersioning (str "shot.v003.nk")) ;;
                       @nuke_scriptSaveAs callbacks_host (str "shot.v003.nk")) c))
      ++ EvStartOrResetTimer :: evs
    /\ trace (snd (run (@VersionUp12._execute_version_up callbacks_host) c))
       = trace (snd (run (print (LogVersioning (str "shot.v003.nk")) ;;
                          @nuke_scriptSaveAs callbacks_host (str "shot.v003.nk")) c))
         ++ EvStartOrResetTimer :: evs
    /\ saves evs = [].
Proof.
  intro c.
  refine (proj2 (proj2 (@execute_ends_with_reschedule callbacks_host c _))).
  right. split; discriminate.
Defined.

(** C6: the two files do the same: [_execute_version_up],
    [start_or_reset_timer] and [__init__] give the same state, host and
    trace from every configuration; [stop_timer] gives the same state,
    the same pending timers and the same calls on the host, the log line
    apart (one file prints before it deregisters, the other after). *)
Theorem variants_agree `{Nuke} c :
  VersionUp12._execute_version_up c = VersionUp._execute_version_up c
  /\ VersionUp12.start_or_reset_timer c = VersionUp.start_or_reset_timer c
  /\ (forall b i w, VersionUp12.__init__ b i w = VersionUp.__init__ b i w)
  /\ fst (run VersionUp12.stop_timer c) = fst (run VersionUp.stop_timer c)
  /\ pending (snd (run VersionUp12.stop_timer c)) = pending (snd (run VersionUp.stop_timer c))
  /\ host_calls (trace (snd (run VersionUp12.stop_timer c)))
     = host_calls (trace (snd (run VersionUp.stop_timer c)))
  /\ saves (trace (snd (run VersionUp12.stop_timer c)))
     = saves (trace (snd (run VersionUp.stop_timer c))).
Proof.
  split; [apply execute_same|].
  split; [reflexivity|]. split; [reflexivity|].
  destruct c as [[bi it tm lt] [clk rn pd nh tr]].
  destruct tm as [t|]; unfold run, VersionUp12.stop_timer, VersionUp.stop_timer, bind; simpl;
    unfold host_calls, saves; rewrite !filter_app; simpl; rewrite ?app_nil_r;
    repeat split; reflexivity.
Qed.

(** ** At most one pending timer *)

Lemma remove_only (t : handle) (pd : list handle) :
  (forall h, In h pd -> h = t) -> remove Nat.eq_dec t pd = [].
Proof.
  induction pd as [|x pd IH]; intro Hall; simpl; [reflexivity|].
  destruct (Nat.eq_dec t x) as [_ | N].
  - apply IH. intros h Hh. apply Hall. now right.
  - elim N. symmetry. apply Hall. now left.
Qed.

Lemma remove_length (t : handle) (pd : list handle) :
  List.length (remove Nat.eq_dec t pd) <= List.length pd.
Proof.
  induction pd as [|x pd IH]; simpl; [lia|].
  destruct (Nat.eq_dec t x); simpl; lia.
Qed.

Lemma one_timer_none (c : config) :
  one_timer c -> timer (fst c) = None -> pending (snd c) = [].
Proof.
  intros [_ Hin] Hn. destruct (pending (snd c)) as [|h pd]; [reflexivity|].
  specialize (Hin h (or_introl eq_refl)). congruence.
Qed.

Lemma one_timer_some (c : config) t :
  one_timer c -> timer (fst c) = Some t ->
  remove Nat.eq_dec t (pending (snd c)) = [].
Proof.
  intros [_ Hin] Ht. apply remove_only. intros h Hh.
  specialize (Hin h Hh). congruence.
Qed.

Lemma one_timer_print l c : one_timer c -> one_timer (snd (print l c)).
Proof. intro H. exact H. Qed.

Lemma one_timer_set_root_name p c : one_timer c -> one_timer (set_root_name p c).
Proof. intro H. exact H. Qed.

(** [start_or_reset_timer] cancels the timer the object holds before it
    creates another: afterwards no timer is pending, or only the new one. *)
Lemma start_or_reset_timer_one_timer c :
  one_timer c ->
  one_timer (run VersionUp.start_or_reset_timer c)
  /\ (pending (snd (run VersionUp.start_or_reset_timer c)) = []
      \/ pending (snd (run VersionUp.start_or_reset_timer c)) = [next_handle (snd c)]).
Proof.
  intro Hinv.
  assert (Hpd : match timer (fst c) with
                | Some t => remove Nat.eq_dec t (pending (snd c)) = []
                | None => pending (snd c) = []
                end).
  { destruct (timer (fst c)) eqn:E;
      [now apply one_timer_some | now apply one_timer_none]. }
  destruct c as [[bi it tm lt] [clk rn pd nh tr]].
  unfold run, VersionUp.start_or_reset_timer, VersionUp._track_interaction,
    bind, emit, time_time, set_last_interaction_time, get_self, nuke_root_name,
    timer_cancel, timer_start, set_timer, print, emit, ret, one_timer.
  cbn [fst snd timer clock root_name pending next_handle trace backup_interval] in *.
  destruct tm as [t|];
    cbn [fst snd timer clock root_name pending next_handle trace backup_interval];
    destruct (negb (is_empty rn) && negb (pystr_eqb rn (str "Root")));
    cbn [fst snd timer clock root_name pending next_handle trace backup_interval];
    rewrite Hpd; simpl; (split; [split; [lia|] | auto]).
  - intros h [<- | []]. reflexivity.
  - intros h [].
  - intros h [<- | []]. reflexivity.
  - intros h [].
Qed.

Lemma stop_timer_one_timer c :
  one_timer c ->
  one_timer (run VersionUp.stop_timer c) /\ one_timer (run VersionUp12.stop_timer c).
Proof.
  intro Hinv.
  assert (Hpd : match timer (fst c) with
                | Some t => remove Nat.eq_dec t (pending (snd c)) = []
                | None => pending (snd c) = []
                end).
  { destruct (timer (fst c)) eqn:E;
      [now apply one_timer_some | now apply one_timer_none]. }
  destruct c as [[bi it tm lt] [clk rn pd nh tr]].
  unfold run, VersionUp.stop_timer, VersionUp12.stop_timer,
    bind, emit, get_self, timer_cancel, set_timer, print, nuke_removeUpdateUI, emit, ret,
    one_timer.
  cbn [fst snd timer clock root_name pending next_handle trace backup_interval] in *.
  destruct tm as [t|];
    cbn [fst snd timer clock root_name pending next_handle trace backup_interval];
    rewrite Hpd; simpl; repeat split; try lia; intros h [].
Qed.

Lemma execute_one_timer `{Nuke} c :
  (forall p c0, one_timer c0 -> one_timer (host_scriptSaveAs p c0)) ->
  one_timer c ->
  one_timer (run VersionUp._execute_version_up c).
Proof.
  intros Hhost Hinv. unfold run.
  destruct (Qgtb (clock (snd c) - last_interaction_time (fst c)) (idle_threshold (fst c)))
    eqn:Hd.
  - destruct (execute_idle c Hd) as [E1 _]. rewrite E1.
    apply (start_or_reset_timer_one_timer (one_timer_print _ Hinv)).
  - destruct (is_empty (root_name (snd c)) || pystr_eqb (root_name (snd c)) (str "Root"))
      eqn:Hp.
    + destruct (execute_no_document c Hd Hp) as [E1 _]. now rewrite E1.
    + destruct (execute_save_as c Hd Hp) as [E1 _]. rewrite E1.
      apply start_or_reset_timer_one_timer. apply Hhost. exact Hinv.
Qed.

Lemma one_timer_fired h c :
  one_timer c ->
  one_timer (fst c,
             MkHost (clock (snd c)) (root_name (snd c))
                    (remove Nat.eq_dec h (pending (snd c))) (next_handle (snd c))
                    (trace (snd c))).
Proof.
  intros [Hlen Hin]. unfold one_timer. cbn [fst snd pending timer]. split.
  - exact (Nat.le_trans _ _ _ (remove_length h (pending (snd c))) Hlen).
  - intros h' Hh'. apply in_remove in Hh' as [Hh' _]. now apply Hin.
Qed.

(** C8: at most one timer is pending, and it is the one the object holds;
    [start_or_reset_timer], [_execute_version_up], [stop_timer] and the
    firing of a timer keep it so in both files, provided the host's
    reaction to a save-as keeps it; after [start_or_reset_timer] no timer
    is pending, or only the one it has just created. *)
Theorem one_timer_preserved `{Nuke} c :
  (forall p c0, one_timer c0 -> one_timer (host_scriptSaveAs p c0)) ->
  one_timer c ->
  one_timer (run VersionUp.start_or_reset_timer c)
  /\ one_timer (run VersionUp._execute_version_up c)
  /\ one_timer (run VersionUp.stop_timer c)
  /\ one_timer (run VersionUp12.start_or_reset_timer c)
  /\ one_timer (run VersionUp12._execute_version_up c)
  /\ one_timer (run VersionUp12.stop_timer c)
  /\ (forall h, one_timer (run (timer_fires h VersionUp._execute_version_up) c))
  /\ (forall h, one_timer (run (timer_fires h VersionUp12._execute_version_up) c))
  /\ (pending (snd (run VersionUp.start_or_reset_timer c)) = []
      \/ pending (snd (run VersionUp.start_or_reset_timer c)) = [next_handle (snd c)])
  /\ List.length (pending (snd (run VersionUp.start_or_reset_timer c))) <= 1.
Proof.
  intros Hhost Hinv.
  destruct (start_or_reset_timer_one_timer Hinv) as [S1 S2].
  destruct (stop_timer_one_timer Hinv) as [T1 T2].
  pose proof (execute_one_timer Hhost Hinv) as X1.
  assert (X12 : one_timer (run VersionUp12._execute_version_up c))
    by (unfold run; rewrite execute_same; exact X1).
  assert (F : forall h, one_timer (run (timer_fires h VersionUp._execute_version_up) c)).
  { intro h. unfold run, timer_fires.
    destruct (in_dec Nat.eq_dec h (pending (snd c))); [|exact Hinv].
    exact (execute_one_timer Hhost (one_timer_fired h Hinv)). }
  assert (F12 : forall h, one_timer (run (timer_fires h VersionUp12._execute_version_up) c)).
  { intro h. specialize (F h). unfold run, timer_fires in *.
    destruct (in_dec Nat.eq_dec h (pending (snd c))); [|exact Hinv].
    rewrite execute_same. exact F. }
  split; [exact S1|]. split; [exact X1|]. split; [exact T1|].
  split; [exact S1|]. split; [exact X12|]. split; [exact T2|].
  split; [exact F|]. split; [exact F12|]. split; [exact S2 | exact (proj1 S1)].
Qed.

Lemma callbacks_host_one_timer p c :
  one_timer c -> one_timer (@host_scriptSaveAs callbacks_host p c).
Proof.
  intro Hinv. simpl.
  apply start_or_reset_timer_one_timer. now apply one_timer_set_root_name.
Qed.

Lemma one_timer_preserved_witness :
  let c := run VersionUp.start_or_reset_timer (session 200 (str "shot.v002.nk")) in
  one_timer (run (@VersionUp._execute_version_up callbacks_host) c)
  /\ one_timer (run (@VersionUp12._execute_version_up callbacks_host) c)
  /\ List.length (pending (snd (run VersionUp.start_or_reset_timer c))) <= 1.
Proof.
  intro c.
  assert (Hinv : one_timer c).
  { split; simpl; [lia|]. intros h [<- | []]. reflexivity. }
  destruct (@one_timer_preserved callbacks_host c callbacks_host_one_timer Hinv)
    as (_ & X1 & _ & _ & X12 & _ & _ & _ & _ & L).
  exact (conj X1 (conj X12 L)).
Defined.

(** ** More on [_get_next_version_path] *)

Lemma lazy_name_line_feed a : forall acc r v d e t,
  version_token v d e -> at_end t = true ->
  lazy_name acc (a ++ newline :: r ++ v ++ d ++ e ++ t) = None.
Proof.
  induction a as [|c a IH]; intros acc r v d e t Htok Ht; simpl.
  - reflexivity.
  - destruct (is_newline c); [reflexivity|].
    pose proof (@match_tail_unique (a ++ newline :: r) v d e t Htok Ht) as U.
    rewrite <- app_assoc in U. simpl in U. rewrite U by (now destruct a).
    now apply IH.
Qed.

Lemma re_search_after_line_feed q : forall x v d e t,
  version_token v d e -> at_end t = true ->
  re_search ((q ++ [newline]) ++ x ++ v ++ d ++ e ++ t)
  = re_search (x ++ v ++ d ++ e ++ t).
Proof.
  induction q as [|c q IH]; intros x v d e t Htok Ht; rewrite <- app_assoc; cbn [app].
  - rewrite re_search_eq. cbn [lazy_name]. change (is_newline newline) with true.
    reflexivity.
  - specialize (IH x v d e t Htok Ht). rewrite <- app_assoc in IH. cbn [app] in IH.
    pose proof (@lazy_name_line_feed (c :: q) [] x v d e t Htok Ht) as L.
    cbn [app] in L. rewrite re_search_eq, L. exact IH.
Qed.

(** X1: the increment branch on any basename.  When the basename is some
    text that is empty or ends in a line feed, then a non-empty name free
    of line feeds, a version token, [.nk] and at most one final line
    feed, the result keeps the name after the last line feed only, drops
    the final line feed, and has the version plus one. *)
Theorem next_version_path_last_line p pre x v d e t :
  basename p = pre ++ x ++ v ++ d ++ e ++ t ->
  pre = [] \/ (exists q, pre = q ++ [newline]) ->
  x <> [] -> absent newline x ->
  version_token v d e -> at_end t = true ->
  _get_next_version_path p
  = join (dirname p) (x ++ v ++ format_03d (int_of_digits d + 1) ++ e).
Proof.
  intros Hb Hpre Hne Hnl Htok Ht.
  assert (R : re_search (basename p) = Some (Groups x v d e)).
  { rewrite Hb. destruct Hpre as [-> | (q & ->)].
    - exact (@re_search_found x v d e t Htok Ht Hne Hnl).
    - rewrite re_search_after_line_feed by assumption.
      exact (@re_search_found x v d e t Htok Ht Hne Hnl). }
  now rewrite (next_version_matched _ R).
Qed.

Lemma next_version_path_last_line_witness :
  _get_next_version_path (str "/j/a.v001" ++ newline :: str "b.v7.nk" ++ [newline])
  = str "/j/b.v008.nk".
Proof.
  refine (@next_version_path_last_line
            (str "/j/a.v001" ++ newline :: str "b.v7.nk" ++ [newline])
            (str "a.v001" ++ [newline]) (str "b") (str ".v") (str "7") (str ".nk")
            [newline] eq_refl _ _ eq_refl _ eq_refl).
  - right. exists (str "a.v001"). reflexivity.
  - discriminate.
  - exists "v"%char, "n"%char, "k"%char. repeat split; discriminate.
Defined.

(** X2: which basenames the pattern matches.  [re.search] finds a match
    exactly when the basename ends, up to one final line feed, in a
    character that is no line feed, then [.v], digits and [.nk]: these
    are the paths [_get_next_version_path] increments; every other path
    gets [.v001]. *)
Theorem pattern_matches_iff s :
  (exists g, re_search s = Some g) <->
  (exists p c v d e t,
      s = p ++ [c] ++ v ++ d ++ e ++ t /\ is_newline c = false /\
      version_token v d e /\ at_end t = true).
Proof.
  split.
  - intros (g & H). apply re_search_spec in H as (p & t & Hne & Hnl & Htok & Ht & E).
    destruct (exists_last Hne) as (x0 & c & Ex). rewrite Ex in E, Hnl.
    apply absent_app in Hnl as [_ Hc]. apply absent_cons in Hc as [Hc _].
    exists (p ++ x0), c, (v_part g), (version_num g), (ext_part g), t.
    repeat split; auto. rewrite E, <- !app_assoc. reflexivity.
  - intros (p & c & v & d & e & t & -> & Hc & Htok & Ht).
    apply re_search_complete; auto; try discriminate.
    apply absent_cons. split; [exact Hc | apply absent_nil].
Qed.

(** X3: versioning up [n] times.  From a path the pattern matches, with
    version [m], [n] applications of [_get_next_version_path] give a path
    the pattern matches with the same name part, [.v] and extension, and
    version [m + n]. *)
Theorem next_version_path_iterated p g n :
  re_search (basename p) = Some g ->
  0 < n ->
  re_search (basename (Nat.iter n _get_next_version_path p))
  = Some (Groups (name_part g) (v_part g)
            (format_03d (int_of_digits (version_num g) + N.of_nat n)) (ext_part g))
  /\ version_of (Nat.iter n _get_next_version_path p)
     = Some (int_of_digits (version_num g) + N.of_nat n)%N.
Proof.
  intros R Hn.
  assert (G : re_search (basename (Nat.iter n _get_next_version_path p))
              = Some (Groups (name_part g) (v_part g)
                        (format_03d (int_of_digits (version_num g) + N.of_nat n))
                        (ext_part g))).
  { destruct n as [|n]; [lia|]. clear Hn. induction n as [|n IH].
    - simpl Nat.iter. apply (re_search_next _ R).
    - change (Nat.iter (S (S n)) _get_next_version_path p)
        with (_get_next_version_path (Nat.iter (S n) _get_next_version_path p)).
      rewrite (re_search_next _ IH). cbn [name_part v_part version_num ext_part].
      rewrite int_of_format_03d. do 3 f_equal. lia. }
  split; [exact G|]. unfold version_of. rewrite G.
  cbn [version_num]. now rewrite int_of_format_03d.
Qed.

Lemma next_version_path_iterated_witness :
  version_of (Nat.iter 5 _get_next_version_path (str "/j/shot.v098.nk")) = Some 103%N.
Proof.
  refine (proj2 (@next_version_path_iterated (str "/j/shot.v098.nk")
                   (Groups (str "shot") (str ".v") (str "098") (str ".nk")) 5 eq_refl _)).
  lia.
Defined.

(** X4: leading zeros of the version are not kept.  Two paths in one
    directory whose basenames differ only in zeros put before the digits
    of the version have the same next version path: the number is
    written anew, padded to three digits. *)
Theorem leading_zeros_not_kept p q x v d e k :
  basename p = x ++ v ++ (repeat "0"%char k ++ d) ++ e ->
  basename q = x ++ v ++ d ++ e ->
  dirname p = dirname q ->
  version_token v d e -> x <> [] -> absent newline x ->
  _get_next_version_path p = _get_next_version_path q.
Proof.
  intros Hp Hq Hdir Htok Hne Hnl.
  assert (Htok' : version_token v (repeat "0"%char k ++ d) e).
  { destruct Htok as (v1 & n & c & -> & Hv & Hd0 & Hd & -> & Hn & Hk).
    exists v1, n, c. repeat split; auto.
    - intro E. apply app_eq_nil in E as [_ E]. contradiction.
    - rewrite forallb_app, Hd, andb_true_r. now apply forallb_repeat. }
  rewrite (next_version_of_token p Hp Htok' Hne Hnl).
  rewrite (next_version_of_token q Hq Htok Hne Hnl).
  rewrite Hdir. do 4 f_equal.
  rewrite int_of_digits_fold, int_fold_zeros by reflexivity. reflexivity.
Qed.

Lemma leading_zeros_not_kept_witness :
  _get_next_version_path (str "/j/shot.v0007.nk") = _get_next_version_path (str "/j/shot.v7.nk").
Proof.
  refine (@leading_zeros_not_kept (str "/j/shot.v0007.nk") (str "/j/shot.v7.nk")
            (str "shot") (str ".v") (str "7") (str ".nk") 3 eq_refl eq_refl eq_refl _ _ eq_refl).
  - exists "v"%char, "n"%char, "k"%char. repeat split; discriminate.
  - discriminate.
Defined.

Lemma join_nil b : join [] b = b.
Proof. unfold join. now destruct (startswith_sep b). Qed.

Lemma next_version_path_of_basename p :
  _get_next_version_path p = join (dirname p) (_get_next_version_path (basename p)).
Proof.
  pose proof (basename_no_sep p) as B.
  unfold _get_next_version_path at 2.
  rewrite (basename_absent B), (dirname_absent B), join_nil. reflexivity.
Qed.

Lemma next_version_path_bare_no_sep b :
  absent sep b -> absent sep (_get_next_version_path b).
Proof.
  intro B. destruct (next_version_cases b) as (new_name & Hn & ->).
  now rewrite (dirname_absent B), join_nil.
Qed.

(** X5: the result, written out.  For a path [h/b] with [b] free of
    separators, the result is the directory text, the separator and the
    result for the bare name [b]; the directory text is [h] as written,
    but that separators which end [h] are dropped when [h] is not made
    of separators only.  So a path without doubled separators keeps its
    directory letter for letter. *)
Theorem next_version_path_directory h b :
  absent sep b ->
  _get_next_version_path (h ++ sep :: b)
  = (if forallb is_sep h then h else rstrip_sep h) ++ sep :: _get_next_version_path b
  /\ (endswith_sep h = false ->
      _get_next_version_path (h ++ sep :: b) = h ++ sep :: _get_next_version_path b).
Proof.
  intro B.
  assert (E : _get_next_version_path (h ++ sep :: b)
              = (if forallb is_sep h then h else rstrip_sep h)
                  ++ sep :: _get_next_version_path b).
  { rewrite next_version_path_of_basename, (basename_last h B), (dirname_last h B).
    pose proof (next_version_path_bare_no_sep B) as Hn.
    set (new_name := _get_next_version_path b) in *.
    unfold join. rewrite (startswith_sep_absent Hn).
    rewrite forallb_app. simpl forallb at 2. change (is_sep sep) with true.
    rewrite !andb_true_r.
    destruct (forallb is_sep h) eqn:Hh; simpl negb; cbv iota.
    - rewrite endswith_sep_snoc. change (is_sep sep) with true. rewrite orb_true_r.
      now rewrite <- app_assoc.
    - rewrite rstrip_app_seps by reflexivity.
      destruct (rstrip_shape _ Hh) as (a & c & -> & Hc).
      rewrite endswith_sep_snoc, Hc.
      replace (is_empty (a ++ [c])) with false by now destruct a.
      reflexivity. }
  split; [exact E|]. intro He. rewrite E.
  destruct (forallb is_sep h) eqn:Hh; [reflexivity|].
  assert (Hne : h <> []) by (intros ->; discriminate).
  destruct (exists_last Hne) as (h0 & c & ->).
  rewrite endswith_sep_snoc in He. now rewrite (@rstrip_last_nonsep h0 c He).
Qed.

Lemma next_version_path_directory_witness :
  _get_next_version_path (str "/jobs//sq01/" ++ sep :: str "shot.v002.nk")
  = str "/jobs//sq01" ++ sep :: _get_next_version_path (str "shot.v002.nk").
Proof.
  exact (proj1 (@next_version_path_directory (str "/jobs//sq01/") (str "shot.v002.nk") eq_refl)).
Defined.

Lemma no_dot_after_dots dots : forall rest a c b,
  forallb is_dot dots = true -> absent extsep rest -> is_dot c = false ->
  dots ++ rest = a ++ c :: b -> absent extsep b.
Proof.
  induction dots as [|x dots IH]; intros rest a c b Hd Hr Hc E; simpl in *.
  - rewrite E in Hr. apply absent_app in Hr as [_ Hr]. now apply absent_cons in Hr as [_ Hr].
  - apply andb_true_iff in Hd as [Hx Hd]. destruct a as [|y a]; simpl in E.
    + injection E as -> _. congruence.
    + injection E as _ E. now apply (IH rest a c b).
Qed.

Lemma splitext_no_extension dots rest :
  forallb is_dot dots = true -> absent extsep rest -> absent sep (dots ++ rest) ->
  splitext (dots ++ rest) = (dots ++ rest, []).
Proof.
  intros Hd Hr Hs. unfold splitext. rewrite (rfind_absent Hs).
  destruct dots as [|x dots] using rev_ind.
  - simpl. now rewrite (rfind_absent Hr).
  - clear IHdots. rewrite forallb_app in Hd. apply andb_true_iff in Hd as [Hd Hx].
    simpl in Hx. rewrite andb_true_r in Hx. apply is_dot_eq in Hx. subst x.
    rewrite <- app_assoc. simpl app. rewrite (rfind_last dots Hr).
    replace (-1 <? Z.of_nat (List.length dots))%Z with true
      by (symmetry; apply Z.ltb_lt; lia).
    rewrite Nat2Z.id. simpl Z.to_nat. rewrite Nat.sub_0_r. simpl skipn.
    rewrite firstn_app_exact.
    replace (existsb (fun c => negb (is_dot c)) dots) with false; [reflexivity|].
    symmetry. clear -Hd. induction dots as [|y dots IH]; simpl in *; [reflexivity|].
    apply andb_true_iff in Hd as [Hy Hd]. now rewrite Hy, (IH Hd).
Qed.

(** X6: a basename without an extension.  When the basename is dots
    followed by text without a dot (no extension for [splitext]: [render],
    [.nk], an empty name), the result is the whole basename with [.v001]
    put after it. *)
Theorem next_version_path_no_extension p dots rest :
  basename p = dots ++ rest ->
  forallb is_dot dots = true -> absent extsep rest ->
  _get_next_version_path p = join (dirname p) (basename p ++ str ".v001").
Proof.
  intros Hb Hd Hr.
  assert (R : re_search (basename p) = None).
  { destruct (re_search (basename p)) as [g|] eqn:R; [exfalso | reflexivity].
    apply re_search_spec in R as (q & t & _ & _ & Htok & Ht & E).
    destruct Htok as (v1 & n & k & Ev & Hv & Hne & Hdig & Ee & Hn & Hk).
    rewrite Ev, Ee, Hb in E.
    assert (A : absent extsep (version_num g ++ [extsep; n; k] ++ t)).
    { apply (@no_dot_after_dots dots rest (q ++ name_part g ++ [extsep]) v1 _
               Hd Hr (v_not_dot _ Hv)).
      rewrite E, <- !app_assoc. reflexivity. }
    apply absent_app in A as [_ A]. now apply absent_cons in A as [A _]. }
  rewrite (next_version_unmatched _ R), Hb.
  rewrite (@splitext_no_extension dots rest Hd Hr)
    by (rewrite <- Hb; apply basename_no_sep).
  reflexivity.
Qed.

Lemma next_version_path_no_extension_witness :
  _get_next_version_path (str "/jobs/.nk") = str "/jobs/.nk.v001".
Proof.
  exact (@next_version_path_no_extension (str "/jobs/.nk") (str ".") (str "nk")
           eq_refl eq_refl eq_refl).
Defined.

Lemma digit_val_le c : is_digit c = true -> (digit_val c <= 9)%N.
Proof. ascii_cases c; vm_compute; congruence. Qed.

Lemma int_fold_upper s : forall acc,
  forallb is_digit s = true ->
  (fold_left int_step s acc < (acc + 1) * 10 ^ N.of_nat (List.length s))%N.
Proof.
  induction s as [|c s IH]; intros acc H.
  - simpl. lia.
  - simpl in H. apply andb_true_iff in H as [Hc Hs].
    cbn [fold_left List.length]. specialize (IH (int_step acc c) Hs).
    rewrite Nat2N.inj_succ, N.pow_succ_r'.
    pose proof (digit_val_le _ Hc) as D. unfold int_step in *.
    set (P := (10 ^ N.of_nat (List.length s))%N) in *. nia.
Qed.

Lemma decimal_digits n : forallb is_digit (decimal n) = true.
Proof. apply string_of_uint_digits. Qed.

Lemma decimal_short :
  forallb (fun k => List.length (decimal (N.of_nat k)) <=? 3) (seq 0 1000) = true.
Proof. vm_compute. reflexivity. Qed.

(** X7: the width of the version.  A version below 1000 is written with
    exactly three digits; from 1000 on it is written with all its digits,
    four or more, and none is cut off. *)
Theorem format_03d_width n :
  ((n < 1000)%N -> List.length (format_03d n) = 3)
  /\ ((1000 <= n)%N -> format_03d n = decimal n /\ 3 < List.length (format_03d n)).
Proof.
  split.
  - intro H. unfold format_03d. rewrite length_app, repeat_length.
    assert (L : List.length (decimal n) <= 3).
    { pose proof decimal_short as S. rewrite forallb_forall in S.
      specialize (S (N.to_nat n)). rewrite N2Nat.id in S.
      apply Nat.leb_le, S, in_seq. lia. }
    lia.
  - intro H.
    assert (L : 3 < List.length (decimal n)).
    { pose proof (int_fold_upper (decimal n) 0 (decimal_digits n)) as U.
      fold (int_of_digits (decimal n)) in U. rewrite int_of_decimal in U.
      destruct (Nat.lt_ge_cases 3 (List.length (decimal n))) as [G | G]; [exact G|].
      exfalso.
      assert (P : (10 ^ N.of_nat (List.length (decimal n)) <= 10 ^ 3)%N)
        by (apply N.pow_le_mono_r; lia).
      change (10 ^ 3)%N with 1000%N in P. lia. }
    unfold format_03d.
    replace (3 - List.length (decimal n)) with 0 by lia. simpl. split; [reflexivity | exact L].
Qed.

Lemma format_03d_width_witness :
  List.length (format_03d 42) = 3
  /\ format_03d 1000 = decimal 1000 /\ 3 < List.length (format_03d 1000).
Proof.
  split.
  - apply (proj1 (format_03d_width 42)). reflexivity.
  - apply (proj2 (format_03d_width 1000)). discriminate.
Defined.

(** ** More on the timer methods *)

Lemma stop_timer_result c :
  one_timer c ->
  (timer (fst (run VersionUp.stop_timer c)) = None
   /\ pending (snd (run VersionUp.stop_timer c)) = []
   /\ update_ui_registered (trace (snd (run VersionUp.stop_timer c))) = false)
  /\ (timer (fst (run VersionUp12.stop_timer c)) = None
      /\ pending (snd (run VersionUp12.stop_timer c)) = []
      /\ update_ui_registered (trace (snd (run VersionUp12.stop_timer c))) = false).
Proof.
  intro Hinv.
  assert (Hpd : match timer (fst c) with
                | Some t => remove Nat.eq_dec t (pending (snd c)) = []
                | None => pending (snd c) = []
                end).
  { destruct (timer (fst c)) eqn:E;
      [now apply one_timer_some | now apply one_timer_none]. }
  destruct c as [[bi it tm lt] [clk rn pd nh tr]].
  unfold run, VersionUp.stop_timer, VersionUp12.stop_timer,
    bind, emit, get_self, timer_cancel, set_timer, print, nuke_removeUpdateUI, emit, ret,
    update_ui_registered.
  cbn [fst snd timer clock root_name pending next_handle trace backup_interval] in *.
  destruct tm as [t|];
    cbn [fst snd timer clock root_name pending next_handle trace backup_interval];
    rewrite ?fold_left_app; simpl; repeat split; auto.
Qed.

Lemma timer_fires_none h (m : M unit) c :
  pending (snd c) = [] -> timer_fires h m c = (tt, c).
Proof.
  intro Hp. unfold timer_fires. rewrite Hp.
  now destruct (in_dec Nat.eq_dec h []).
Qed.

(** X8: [stop_timer] disarms.  From a state with at most one pending
    timer, held by the object, [stop_timer] leaves no timer pending and
    none held, and the interaction callback removed; a timer that fires
    afterwards runs nothing.  Both files. *)
Theorem stop_timer_disarms c :
  one_timer c ->
  (timer (fst (run VersionUp.stop_timer c)) = None
   /\ pending (snd (run VersionUp.stop_timer c)) = []
   /\ update_ui_registered (trace (snd (run VersionUp.stop_timer c))) = false
   /\ forall h m, timer_fires h m (run VersionUp.stop_timer c)
                  = (tt, run VersionUp.stop_timer c))
  /\ (timer (fst (run VersionUp12.stop_timer c)) = None
      /\ pending (snd (run VersionUp12.stop_timer c)) = []
      /\ update_ui_registered (trace (snd (run VersionUp12.stop_timer c))) = false
      /\ forall h m, timer_fires h m (run VersionUp12.stop_timer c)
                     = (tt, run VersionUp12.stop_timer c)).
Proof.
  intro Hinv. destruct (stop_timer_result Hinv) as [(T1 & P1 & U1) (T2 & P2 & U2)].
  split; (split; [assumption|]); (split; [assumption|]); (split; [assumption|]);
    intros h m; now apply timer_fires_none.
Qed.

Lemma stop_timer_disarms_witness :
  let c := run VersionUp.start_or_reset_timer (session 200 (str "shot.v002.nk")) in
  pending (snd c) = [0]
  /\ pending (snd (run VersionUp.stop_timer c)) = []
  /\ timer_fires 0 (@VersionUp._execute_version_up callbacks_host) (run VersionUp.stop_timer c)
     = (tt, run VersionUp.stop_timer c).
Proof.
  intro c.
  assert (Hinv : one_timer c).
  { split; simpl; [lia|]. intros h [<- | []]. reflexivity. }
  destruct (stop_timer_disarms Hinv) as [(_ & P & _ & F) _].
  split; [reflexivity|]. split; [exact P | apply F].
Defined.

(** X9: [start_or_reset_timer] arms.  From a state with at most one
    pending timer, held by the object, the method marks an interaction
    (the last interaction time is the clock); with a document open,
    exactly one timer is pending afterwards, a new one, and the object
    holds it; with no document open none is pending and the object holds
    what it held. *)
Theorem start_or_reset_timer_arms c :
  one_timer c ->
  let c' := run VersionUp.start_or_reset_timer c in
  last_interaction_time (fst c') = clock (snd c)
  /\ (root_name (snd c) <> [] -> root_name (snd c) <> str "Root" ->
      pending (snd c') = [next_handle (snd c)]
      /\ timer (fst c') = Some (next_handle (snd c))
      /\ next_handle (snd c') = S (next_handle (snd c)))
  /\ (root_name (snd c) = [] \/ root_name (snd c) = str "Root" ->
      pending (snd c') = [] /\ timer (fst c') = timer (fst c)).
Proof.
  intros Hinv c'.
  assert (Hpd : match timer (fst c) with
                | Some t => remove Nat.eq_dec t (pending (snd c)) = []
                | None => pending (snd c) = []
                end).
  { destruct (timer (fst c)) eqn:E;
      [now apply one_timer_some | now apply one_timer_none]. }
  assert (Hdoc : forall p, negb (is_empty p) && negb (pystr_eqb p (str "Root"))
                           = negb (is_empty p || pystr_eqb p (str "Root")))
    by (intro p; now rewrite negb_orb).
  subst c'. destruct c as [[bi it tm lt] [clk rn pd nh tr]].
  unfold run, VersionUp.start_or_reset_timer, VersionUp._track_interaction,
    bind, emit, time_time, set_last_interaction_time, get_self, nuke_root_name,
    timer_cancel, timer_start, set_timer, print, emit, ret.
  cbn [fst snd timer clock root_name pending next_handle trace backup_interval
       last_interaction_time] in *.
  destruct tm as [t|];
    cbn [fst snd timer clock root_name pending next_handle trace backup_interval
         idle_threshold last_interaction_time];
    rewrite Hdoc;
    (destruct (is_empty rn || pystr_eqb rn (str "Root")) eqn:Hp;
     [apply no_document_iff in Hp | apply has_document_iff in Hp; destruct Hp as [H1 H2]]);
    cbn [negb fst snd timer clock root_name pending next_handle trace backup_interval
         idle_threshold last_interaction_time];
    (split; [reflexivity|]); split;
    try (intros G1 G2; destruct Hp; contradiction);
    try (intros [G | G]; contradiction);
    intros; now rewrite Hpd.
Qed.

Lemma start_or_reset_timer_arms_witness :
  let c := run VersionUp.start_or_reset_timer (session 200 (str "shot.v002.nk")) in
  let c' := run VersionUp.start_or_reset_timer (set_clock 260 c) in
  last_interaction_time (fst c') = 260%Q
  /\ pending (snd c') = [1] /\ timer (fst c') = Some 1.
Proof.
  intros c c'.
  assert (Hinv : one_timer (set_clock 260 c)).
  { split; simpl; [lia|]. intros h [<- | []]. reflexivity. }
  destruct (start_or_reset_timer_arms Hinv) as (L & A & _).
  split; [exact L|].
  destruct A as (P & T & _); [discriminate | discriminate |].
  split; [exact P | exact T].
Defined.

(** What [start_or_reset_timer] leaves as it was, and what it sets. *)
Lemma start_or_reset_timer_frame c :
  let c' := run VersionUp.start_or_reset_timer c in
  last_interaction_time (fst c') = clock (snd c)
  /\ idle_threshold (fst c') = idle_threshold (fst c)
  /\ backup_interval (fst c') = backup_interval (fst c)
  /\ clock (snd c') = clock (snd c)
  /\ root_name (snd c') = root_name (snd c)
  /\ update_ui_registered (trace (snd c')) = update_ui_registered (trace (snd c)).
Proof.
  destruct c as [[bi it tm lt] [clk rn pd nh tr]].
  unfold run, VersionUp.start_or_reset_timer, VersionUp._track_interaction,
    bind, emit, time_time, set_last_interaction_time, get_self, nuke_root_name,
    timer_cancel, timer_start, set_timer, print, emit, ret, update_ui_registered.
  destruct tm as [t|];
    cbn [fst snd timer clock root_name pending next_handle trace backup_interval
         idle_threshold last_interaction_time];
    destruct (negb (is_empty rn) && negb (pystr_eqb rn (str "Root")));
    cbn [fst snd timer clock root_name pending next_handle trace backup_interval
         idle_threshold last_interaction_time];
    rewrite ?fold_left_app; simpl; repeat split; reflexivity.
Qed.

Lemma registered_emit e c :
  e <> EvAddUpdateUI -> e <> EvRemoveUpdateUI ->
  update_ui_registered (trace (snd (snd (emit e c)))) = update_ui_registered (trace (snd c)).
Proof.
  intros H1 H2. unfold update_ui_registered, emit. cbn [fst snd trace].
  rewrite fold_left_app. destruct e; simpl; congruence.
Qed.

Section Runs.

Context `{Nuke}.

(** The three shapes of [_execute_version_up]. *)
Lemma execute_shapes c :
  let d := (clock (snd c) - last_interaction_time (fst c))%Q in
  let next_version_path := _get_next_version_path (root_name (snd c)) in
  VersionUp._execute_version_up c
  = (print (LogIdle d) ;; VersionUp.start_or_reset_timer) c
  \/ VersionUp._execute_version_up c = (tt, c)
  \/ VersionUp._execute_version_up c
     = (print (LogVersioning (basename next_version_path)) ;;
        nuke_scriptSaveAs next_version_path ;;
        VersionUp.start_or_reset_timer) c.
Proof.
  intros d next.
  destruct (Qgtb d (idle_threshold (fst c))) eqn:Hd.
  - left. exact (proj1 (execute_idle c Hd)).
  - destruct (is_empty (root_name (snd c)) || pystr_eqb (root_name (snd c)) (str "Root"))
      eqn:Hp.
    + right; left. exact (proj1 (execute_no_document c Hd Hp)).
    + right; right. exact (proj1 (execute_save_as c Hd Hp)).
Qed.

(** A property of configurations that printing, the save-as call, the
    host's answer to it and [start_or_reset_timer] keep is kept by
    [_execute_version_up]. *)
Lemma execute_keeps (P : config -> Prop) :
  (forall l c, P c -> P (snd (print l c))) ->
  (forall p c, P c -> P (snd (emit (EvScriptSaveAs p) c))) ->
  (forall p c, P c -> P (host_scriptSaveAs p c)) ->
  (forall c, P c -> P (run VersionUp.start_or_reset_timer c)) ->
  forall c, P c -> P (run VersionUp._execute_version_up c).
Proof.
  intros Hprint Hemit Hhost Hstart c Hc. unfold run.
  destruct (execute_shapes c) as [E | [E | E]]; rewrite E.
  - apply Hstart, Hprint, Hc.
  - exact Hc.
  - apply Hstart, Hhost, Hemit, Hprint, Hc.
Qed.

Lemma on_event_same e c : on_event12 e c = on_event e c \/ e = OnScriptClose.
Proof.
  destruct e; try (left; reflexivity); [right; reflexivity | left].
  unfold on_event12, on_event, handle_event, timer_fires.
  destruct (in_dec Nat.eq_dec h (pending (snd c))); [apply execute_same | reflexivity].
Qed.

Lemma on_event_keeps (P : config -> Prop) :
  (forall c, P c -> P (run VersionUp.start_or_reset_timer c)) ->
  (forall c, P c -> P (run VersionUp.stop_timer c)) ->
  (forall c, P c -> P (run VersionUp12.stop_timer c)) ->
  (forall c, P c -> P (run VersionUp._track_interaction c)) ->
  (forall c, P c -> P (run VersionUp._execute_version_up c)) ->
  (forall h c, P c ->
     P (fst c, MkHost (clock (snd c)) (root_name (snd c))
                      (remove Nat.eq_dec h (pending (snd c))) (next_handle (snd c))
                      (trace (snd c)))) ->
  (forall t c, P c -> P (set_clock t c)) ->
  (forall p c, P c -> P (set_root_name p c)) ->
  forall e c, P c -> P (run (on_event e) c) /\ P (run (on_event12 e) c).
Proof.
  intros Hstart Hstop Hstop12 Htrack Hexec Hfire Hclock Hroot e c Hc.
  assert (G : P (run (on_event e) c)).
  { destruct e; unfold run, on_event, handle_event; cbn [snd]; auto.
    - apply Hstart, Hc.
    - apply Hstart, Hc.
    - apply Hstop, Hc.
    - destruct (update_ui_registered (trace (snd c))); [apply Htrack, Hc | exact Hc].
    - unfold timer_fires.
      destruct (in_dec Nat.eq_dec h (pending (snd c))); [|exact Hc].
      apply Hexec, Hfire, Hc. }
  split; [exact G|].
  destruct (on_event_same e c) as [E | ->].
  - unfold run. rewrite E. exact G.
  - apply Hstop12, Hc.
Qed.

Lemma run_events_keeps (P : config -> Prop) (step : host_event -> M unit) :
  (forall e c, P c -> P (run (step e) c)) ->
  forall es c, P c -> P (run_events step es c).
Proof.
  intros Hstep es. unfold run_events.
  induction es as [|e es IH]; intros c Hc; simpl; [exact Hc|].
  apply IH, Hstep, Hc.
Qed.

End Runs.

Lemma stop_timer_unregisters c :
  update_ui_registered (trace (snd (run VersionUp.stop_timer c))) = false
  /\ update_ui_registered (trace (snd (run VersionUp12.stop_timer c))) = false.
Proof.
  destruct c as [[bi it tm lt] [clk rn pd nh tr]].
  unfold run, VersionUp.stop_timer, VersionUp12.stop_timer,
    bind, emit, get_self, timer_cancel, set_timer, print, nuke_removeUpdateUI, emit, ret,
    update_ui_registered.
  destruct tm as [t|];
    cbn [fst snd timer clock root_name pending next_handle trace];
    rewrite ?fold_left_app; simpl; split; reflexivity.
Qed.

Lemma init_one_timer b i w :
  pending w = [] ->
  one_timer (VersionUp.__init__ b i w) /\ one_timer (VersionUp12.__init__ b i w).
Proof.
  intro Hp. unfold one_timer, VersionUp.__init__, VersionUp12.__init__, run, bind,
    nuke_addUpdateUI, print, emit.
  cbn [fst snd pending timer]. rewrite Hp. simpl. repeat split; try lia; intros h [].
Qed.

(** X10: at most one timer along every run.  From [__init__] on a host
    with no timer pending, whatever events the host sends (loads, saves,
    closes, UI updates, timers firing, time passing, scripts renamed), at
    most one timer is pending and the object holds it, provided the
    host's answer to a save-as keeps it so.  Both files. *)
Theorem one_timer_along_runs `{Nuke} b i w es :
  (forall p c, one_timer c -> one_timer (host_scriptSaveAs p c)) ->
  pending w = [] ->
  one_timer (run_events on_event es (VersionUp.__init__ b i w))
  /\ one_timer (run_events on_event12 es (VersionUp12.__init__ b i w)).
Proof.
  intros Hhost Hp.
  assert (K : forall e c, one_timer c ->
                one_timer (run (on_event e) c) /\ one_timer (run (on_event12 e) c)).
  { apply on_event_keeps.
    - intros c Hc. apply (start_or_reset_timer_one_timer Hc).
    - intros c Hc. apply (stop_timer_one_timer Hc).
    - intros c Hc. apply (stop_timer_one_timer Hc).
    - intros c Hc. exact Hc.
    - intros c Hc. exact (execute_one_timer Hhost Hc).
    - intros h c Hc. exact (one_timer_fired h Hc).
    - intros t c Hc. exact Hc.
    - intros p c Hc. exact Hc. }
  destruct (@init_one_timer b i w Hp) as [I1 I2]. split.
  - apply run_events_keeps; [intros e c Hc; apply (K e c Hc) | exact I1].
  - apply run_events_keeps; [intros e c Hc; apply (K e c Hc) | exact I2].
Qed.

Lemma one_timer_along_runs_witness :
  one_timer (run_events (@on_event callbacks_host)
               [RootNamed (str "shot.v002.nk"); OnScriptLoad; ClockReads 4900; UpdateUI;
                TimerFires 0; OnScriptSave; OnScriptClose; TimerFires 3]
               (VersionUp.__init__ 4800 300 (MkHost 100 (str "Root") [] 0 []))).
Proof.
  exact (proj1 (@one_timer_along_runs callbacks_host 4800 300
                  (MkHost 100 (str "Root") [] 0 []) _ callbacks_host_one_timer eq_refl)).
Defined.

(** X11: the interaction callback is not registered again.  After a
    script close ([stop_timer] calls [removeUpdateUI]) no later event
    makes the object register [_track_interaction] again, provided the
    host's answer to a save-as does not; so a UI update after a close
    changes nothing.  Both files. *)
Theorem interaction_callback_stays_removed `{Nuke} c es :
  (forall p c0, update_ui_registered (trace (snd c0)) = false ->
                update_ui_registered (trace (snd (host_scriptSaveAs p c0))) = false) ->
  let c1 := run_events on_event (OnScriptClose :: es) c in
  let c2 := run_events on_event12 (OnScriptClose :: es) c in
  update_ui_registered (trace (snd c1)) = false
  /\ run (on_event UpdateUI) c1 = c1
  /\ update_ui_registered (trace (snd c2)) = false
  /\ run (on_event12 UpdateUI) c2 = c2.
Proof.
  intros Hhost c1 c2.
  set (P := fun c0 : config => update_ui_registered (trace (snd c0)) = false).
  assert (S : forall c0, P c0 -> P (run VersionUp.start_or_reset_timer c0)).
  { intros c0 Hc. unfold P.
    destruct (start_or_reset_timer_frame c0) as (_ & _ & _ & _ & _ & R). now rewrite R. }
  assert (K : forall e c0, P c0 -> P (run (on_event e) c0) /\ P (run (on_event12 e) c0)).
  { apply on_event_keeps; auto.
    - intros c0 _. apply stop_timer_unregisters.
    - intros c0 _. apply stop_timer_unregisters.
    - apply execute_keeps; auto.
      + intros l c0 Hc. unfold P, print. rewrite registered_emit; [exact Hc | |]; discriminate.
      + intros p c0 Hc. unfold P. rewrite registered_emit; [exact Hc | |]; discriminate. }
  assert (P1 : P c1).
  { change c1 with (run_events on_event es (run VersionUp.stop_timer c)).
    apply run_events_keeps; [intros e c0 Hc; apply (K e c0 Hc)|].
    apply stop_timer_unregisters. }
  assert (P2 : P c2).
  { change c2 with (run_events on_event12 es (run VersionUp12.stop_timer c)).
    apply run_events_keeps; [intros e c0 Hc; apply (K e c0 Hc)|].
    apply stop_timer_unregisters. }
  unfold P in P1, P2. repeat split; try assumption.
  - unfold run, on_event, handle_event. now rewrite P1.
  - unfold run, on_event12, handle_event. now rewrite P2.
Qed.

Lemma callbacks_host_unregistered p c :
  update_ui_registered (trace (snd c)) = false ->
  update_ui_registered (trace (snd (@host_scriptSaveAs callbacks_host p c))) = false.
Proof.
  intro Hc. simpl.
  destruct (start_or_reset_timer_frame (set_root_name p c)) as (_ & _ & _ & _ & _ & R).
  now rewrite R.
Qed.

Lemma interaction_callback_stays_removed_witness :
  let c1 := run_events (@on_event callbacks_host)
              [OnScriptClose; RootNamed (str "b.nk"); OnScriptLoad; ClockReads 250]
              (VersionUp.__init__ 4800 300 (MkHost 100 (str "a.nk") [] 0 [])) in
  update_ui_registered (trace (snd c1)) = false
  /\ run (@on_event callbacks_host UpdateUI) c1 = c1.
Proof.
  intro c1.
  destruct (@interaction_callback_stays_removed callbacks_host
              (VersionUp.__init__ 4800 300 (MkHost 100 (str "a.nk") [] 0 []))
              [RootNamed (str "b.nk"); OnScriptLoad; ClockReads 250]
              callbacks_host_unregistered) as (A & B & _).
  split; [exact A | exact B].
Defined.

Lemma quiet_events_frame `{Nuke} es : forall c,
  update_ui_registered (trace (snd c)) = false ->
  forallb is_quiet es = true ->
  (fst (run_events on_event es c) = fst c
   /\ update_ui_registered (trace (snd (run_events on_event es c))) = false)
  /\ run_events on_event12 es c = run_events on_event es c.
Proof.
  induction es as [|e es IH]; intros c Hc Hq; [now repeat split|].
  simpl in Hq. apply andb_true_iff in Hq as [He Hq].
  assert (Q : fst (run (on_event e) c) = fst c
              /\ update_ui_registered (trace (snd (run (on_event e) c))) = false
              /\ run (on_event12 e) c = run (on_event e) c).
  { destruct e; try discriminate; unfold run, on_event, on_event12, handle_event.
    - rewrite Hc. now repeat split.
    - now repeat split.
    - now repeat split. }
  destruct Q as (Q1 & Q2 & Q3).
  destruct (IH (run (on_event e) c) Q2 Hq) as ((I1 & I2) & I3).
  unfold run_events in *. simpl. rewrite Q3. repeat split; try assumption.
  now rewrite I1.
Qed.

(** X12: after a close, activity is not tracked.  Once the interaction
    callback is removed, a script load marks an interaction at the clock
    of the load, and UI updates no longer move it, however many follow
    and whatever time passes; a timer that then fires later than the idle
    threshold after the load takes the idle branch and saves nothing.
    Both files. *)
Theorem activity_untracked_after_close `{Nuke} c es :
  update_ui_registered (trace (snd c)) = false ->
  forallb is_quiet es = true ->
  let c1 := run_events on_event es (run VersionUp.start_or_reset_timer c) in
  let d := (clock (snd c1) - clock (snd c))%Q in
  run_events on_event12 es (run VersionUp12.start_or_reset_timer c) = c1
  /\ last_interaction_time (fst c1) = clock (snd c)
  /\ ((idle_threshold (fst c) < d)%Q ->
      VersionUp._execute_version_up c1
      = (print (LogIdle d) ;; VersionUp.start_or_reset_timer) c1
      /\ VersionUp12._execute_version_up c1
         = (print (LogIdle d) ;; VersionUp12.start_or_reset_timer) c1).
Proof.
  intros Hc Hq c1 d.
  destruct (start_or_reset_timer_frame c) as (L & T & _ & _ & _ & R).
  rewrite Hc in R.
  destruct (quiet_events_frame es _ R Hq) as ((F & _) & E12).
  fold c1 in F, E12.
  assert (L1 : last_interaction_time (fst c1) = clock (snd c)) by (now rewrite F).
  assert (T1 : idle_threshold (fst c1) = idle_threshold (fst c)) by (now rewrite F).
  split; [exact E12|]. split; [exact L1|].
  intro Hidle. unfold d in *. rewrite <- L1, <- T1 in *.
  apply Qgtb_true_iff in Hidle. exact (execute_idle c1 Hidle).
Qed.

Lemma activity_untracked_after_close_witness :
  let c := run VersionUp.stop_timer
             (VersionUp.__init__ 4800 300 (MkHost 100 (str "a.nk") [] 0 [])) in
  let c1 := run_events (@on_event callbacks_host)
              [ClockReads 200; UpdateUI; ClockReads 450; UpdateUI]
              (run VersionUp.start_or_reset_timer c) in
  last_interaction_time (fst c1) = 100%Q
  /\ @VersionUp._execute_version_up callbacks_host c1
     = (print (LogIdle (450 - 100)) ;; VersionUp.start_or_reset_timer) c1.
Proof.
  intros c c1.
  destruct (@activity_untracked_after_close callbacks_host c
              [ClockReads 200; UpdateUI; ClockReads 450; UpdateUI] eq_refl eq_refl)
    as (_ & L & I).
  split; [exact L|]. exact (proj1 (I eq_refl)).
Defined.

(** X13: the save is never in place.  The next version path differs from
    the current path, also when case is ignored, so the comparison that
    guards the plain save never holds: in both files
    [_execute_version_up] is the idle line and a reschedule, or nothing,
    or the versioning line, a save-as and a reschedule; it never calls
    [nuke.scriptSave]. *)
Theorem execute_never_saves_in_place `{Nuke} c :
  let d := (clock (snd c) - last_interaction_time (fst c))%Q in
  let p := root_name (snd c) in
  let next_version_path := _get_next_version_path p in
  lower p <> lower next_version_path
  /\ p <> next_version_path
  /\ (VersionUp._execute_version_up c
      = (print (LogIdle d) ;; VersionUp.start_or_reset_timer) c
      \/ VersionUp._execute_version_up c = (tt, c)
      \/ VersionUp._execute_version_up c
         = (print (LogVersioning (basename next_version_path)) ;;
            nuke_scriptSaveAs next_version_path ;;
            VersionUp.start_or_reset_timer) c)
  /\ (VersionUp12._execute_version_up c
      = (print (LogIdle d) ;; VersionUp12.start_or_reset_timer) c
      \/ VersionUp12._execute_version_up c = (tt, c)
      \/ VersionUp12._execute_version_up c
         = (print (LogVersioning (basename next_version_path)) ;;
            nuke_scriptSaveAs next_version_path ;;
            VersionUp12.start_or_reset_timer) c).
Proof.
  intros d p next.
  split; [apply lower_next_differs|].
  split; [intro E; apply (lower_next_differs p); fold next; now rewrite <- E|].
  split; [apply execute_shapes|].
  rewrite execute_same, start_or_reset_timer_same. apply execute_shapes.
Qed.

(** X14: an idle skip counts as an interaction.  When
    [_execute_version_up] takes the idle branch, the reschedule sets the
    last interaction time to the clock; a timer that fires again within
    the idle threshold of the skip, with a document open, does a save-as,
    whatever the user did in between. *)
Theorem idle_skip_marks_interaction `{Nuke} c t :
  (idle_threshold (fst c) < clock (snd c) - last_interaction_time (fst c))%Q ->
  let c1 := run VersionUp._execute_version_up c in
  let next_version_path := _get_next_version_path (root_name (snd c)) in
  last_interaction_time (fst c1) = clock (snd c)
  /\ ((t - clock (snd c) <= idle_threshold (fst c))%Q ->
      root_name (snd c) <> [] -> root_name (snd c) <> str "Root" ->
      VersionUp._execute_version_up (set_clock t c1)
      = (print (LogVersioning (basename next_version_path)) ;;
         nuke_scriptSaveAs next_version_path ;;
         VersionUp.start_or_reset_timer) (set_clock t c1)).
Proof.
  intros Hidle c1 next. apply Qgtb_true_iff in Hidle.
  assert (E : c1 = run VersionUp.start_or_reset_timer
                     (snd (print (LogIdle (clock (snd c) - last_interaction_time (fst c))) c))).
  { unfold c1, run. now rewrite (proj1 (execute_idle c Hidle)). }
  destruct (start_or_reset_timer_frame
              (snd (print (LogIdle (clock (snd c) - last_interaction_time (fst c))) c)))
    as (L & T & _ & _ & R & _).
  rewrite <- E in L, T, R. cbn [print emit fst snd clock root_name idle_threshold] in L, T, R.
  split; [exact L|].
  intros Hactive H1 H2.
  assert (Hd : Qgtb (clock (snd (set_clock t c1)) - last_interaction_time (fst (set_clock t c1)))
                 (idle_threshold (fst (set_clock t c1))) = false).
  { apply Qgtb_false_iff. cbn [set_clock fst snd clock]. now rewrite L, T. }
  assert (Hp : is_empty (root_name (snd (set_clock t c1)))
               || pystr_eqb (root_name (snd (set_clock t c1))) (str "Root") = false).
  { apply has_document_iff. cbn [set_clock fst snd root_name]. rewrite R. now split. }
  pose proof (proj1 (execute_save_as _ Hd Hp)) as S.
  cbn [set_clock fst snd root_name] in S. rewrite R in S. exact S.
Qed.

Lemma idle_skip_marks_interaction_witness :
  let c := session 1000 (str "shot.v002.nk") in
  let c1 := run (@VersionUp._execute_version_up callbacks_host) c in
  last_interaction_time (fst c1) = 1000%Q
  /\ @VersionUp._execute_version_up callbacks_host (set_clock 1200 c1)
     = (print (LogVersioning (str "shot.v003.nk")) ;;
        @nuke_scriptSaveAs callbacks_host (str "shot.v003.nk") ;;
        VersionUp.start_or_reset_timer) (set_clock 1200 c1).
Proof.
  intros c c1.
  destruct (@idle_skip_marks_interaction callbacks_host c 1200 eq_refl) as (L & S).
  split; [exact L|].
  refine (S _ _ _); [vm_compute | |]; discriminate.
Defined.

(** X15: while the interaction callback is registered, a UI update is an
    interaction: it sets the last interaction time to the clock, and a
    timer that fires within the idle threshold of it, with a document
    open, does a save-as.  Both files. *)
Theorem activity_tracked_while_registered `{Nuke} c t :
  update_ui_registered (trace (snd c)) = true ->
  let c1 := run (on_event UpdateUI) c in
  let next_version_path := _get_next_version_path (root_name (snd c)) in
  run (on_event12 UpdateUI) c = c1
  /\ last_interaction_time (fst c1) = clock (snd c)
  /\ ((t - clock (snd c) <= idle_threshold (fst c))%Q ->
      root_name (snd c) <> [] -> root_name (snd c) <> str "Root" ->
      VersionUp._execute_version_up (set_clock t c1)
      = (print (LogVersioning (basename next_version_path)) ;;
         nuke_scriptSaveAs next_version_path ;;
         VersionUp.start_or_reset_timer) (set_clock t c1)
      /\ VersionUp12._execute_version_up (set_clock t c1)
         = (print (LogVersioning (basename next_version_path)) ;;
            nuke_scriptSaveAs next_version_path ;;
            VersionUp12.start_or_reset_timer) (set_clock t c1)).
Proof.
  intros Hreg c1 next.
  assert (E : c1 = (AutoSaver (backup_interval (fst c)) (idle_threshold (fst c))
                              (timer (fst c)) (clock (snd c)), snd c)).
  { unfold c1, run, on_event, handle_event. rewrite Hreg. reflexivity. }
  split; [unfold run, on_event12, handle_event; rewrite Hreg; now rewrite E|].
  split; [now rewrite E|].
  intros Hactive H1 H2. rewrite E.
  apply execute_save_as.
  - apply Qgtb_false_iff. exact Hactive.
  - apply has_document_iff. now split.
Qed.

Lemma activity_tracked_while_registered_witness :
  let c := set_clock 5000 (VersionUp.__init__ 4800 300 (MkHost 100 (str "shot.v002.nk") [] 0 [])) in
  let c1 := run (@on_event callbacks_host UpdateUI) c in
  last_interaction_time (fst c1) = 5000%Q
  /\ @VersionUp._execute_version_up callbacks_host (set_clock 5200 c1)
     = (print (LogVersioning (str "shot.v003.nk")) ;;
        @nuke_scriptSaveAs callbacks_host (str "shot.v003.nk") ;;
        VersionUp.start_or_reset_timer) (set_clock 5200 c1).
Proof.
  intros c c1.
  destruct (@activity_tracked_while_registered callbacks_host c 5200 eq_refl) as (_ & L & S).
  split; [exact L|].
  refine (proj1 (S _ _ _)); [vm_compute | |]; discriminate.
Defined.

(** X16: [splitext] as the else branch uses it.  On a basename (no
    separator) the two parts put together give the basename back; the
    extension is empty, or starts at the last dot and has no other dot;
    and it is empty exactly when the basename has no dot after a
    character that is no dot. *)
Theorem splitext_basename b :
  absent sep b ->
  fst (splitext b) ++ snd (splitext b) = b
  /\ (snd (splitext b) = []
      \/ exists x, snd (splitext b) = extsep :: x /\ absent extsep x)
  /\ (snd (splitext b) = [] <->
      exists dots rest, b = dots ++ rest /\ forallb is_dot dots = true /\ absent extsep rest).
Proof.
  intro B. split; [apply splitext_app|].
  destruct (last_occurrence extsep b) as [A | (h & x & -> & A)].
  - (* no dot at all *)
    pose proof (@splitext_no_extension [] b eq_refl A B) as S. simpl in S. rewrite S.
    split; [now left|]. split; [intros _ | reflexivity].
    exists [], b. now repeat split.
  - destruct (existsb (fun c => negb (is_dot c)) h) eqn:Hh.
    + rewrite (splitext_last_dot h B A Hh). simpl snd.
      split; [right; now exists x|]. split; [discriminate|].
      intros (dots & rest & E & Hd & Hr). exfalso.
      (* a character of [h] that is no dot stands before a dot *)
      apply existsb_exists in Hh as (c & Hin & Hc). apply negb_true_iff in Hc.
      apply in_split in Hin as (h1 & h2 & ->).
      assert (A' : absent extsep (h2 ++ extsep :: x)).
      { apply (@no_dot_after_dots dots rest h1 c _ Hd Hr Hc).
        rewrite <- E, <- app_assoc. reflexivity. }
      apply absent_app in A' as [_ A']. apply absent_cons in A' as [A' _].
      discriminate.
    + assert (Hd : forallb is_dot (h ++ [extsep]) = true).
      { rewrite forallb_app. simpl. rewrite andb_true_r.
        clear -Hh. induction h as [|y h IH]; simpl in *; [reflexivity|].
        apply orb_false_iff in Hh as [Hy Hh]. apply negb_false_iff in Hy.
        now rewrite Hy, (IH Hh). }
      assert (E : h ++ extsep :: x = (h ++ [extsep]) ++ x)
        by (now rewrite <- app_assoc).
      rewrite E in B |- *.
      rewrite (@splitext_no_extension (h ++ [extsep]) x Hd A B). simpl snd.
      split; [now left|]. split; [intros _ | reflexivity].
      exists (h ++ [extsep]), x. now repeat split.
Qed.

Lemma splitext_basename_witness :
  fst (splitext (str "shot.v002.tar.gz")) ++ snd (splitext (str "shot.v002.tar.gz"))
  = str "shot.v002.tar.gz"
  /\ snd (splitext (str "shot.v002.tar.gz")) = str ".gz"
  /\ snd (splitext (str "...nk")) = [].
Proof.
  destruct (@splitext_basename (str "shot.v002.tar.gz") eq_refl) as (R & _ & _).
  split; [exact R|]. split; reflexivity.
Defined.
